(** * DuperMemory: coordinator routing, response-completion detector and
    context-block formatter

    A shallow embedding of the extension's three pure cores:

    - [background.js]: the service worker's message handler with its two
      routing tables [pendingContext] and [pendingReview];
    - [content/claude.js]: the two-phase poll [waitForClaudeResponse], the
      diff extraction [extractResponse] and the orchestration
      [runInjectionFlow];
    - [utils/format.js]: [formatContextBlock].

    JavaScript strings are sequences of UTF-16 code units, modelled as
    [list N].  Tab identities are JavaScript numbers holding integers,
    modelled as [Z]; a tab identity is truthy exactly when it is not [0].
    Objects used as dictionaries are [gmap]s. *)

From Stdlib Require Import ZArith NArith Lia List Ascii String.
From stdpp Require Import base option list gmap.

Local Open Scope Z_scope.

(* ================================================================== *)
(** * JavaScript strings *)
(* ================================================================== *)

Module Js.

(** A string is its sequence of UTF-16 code units. *)
Definition jsstring := list N.

(** A source literal (all literals of the program are ASCII). *)
Definition lit (s : string) : jsstring :=
  map N_of_ascii (list_ascii_of_string s).

(** [s.length] *)
Definition len (s : jsstring) : Z := Z.of_nat (length s).

(** [!s] on a string is [true] exactly for the empty string. *)
Definition truthy (s : jsstring) : bool :=
  match s with [] => false | _ :: _ => true end.

(** [s.slice(start)] for a non-negative integer [start]. *)
Definition slice (s : jsstring) (start : Z) : jsstring :=
  drop (Z.to_nat start) s.

(** ECMAScript WhiteSpace and LineTerminator code units, the set removed by
    [String.prototype.trim]. *)
Definition isWhiteSpace (c : N) : bool :=
  ((9 <=? c) && (c <=? 13) || (c =? 32) || (c =? 160) || (c =? 5760)
   || (8192 <=? c) && (c <=? 8202) || (c =? 8232) || (c =? 8233)
   || (c =? 8239) || (c =? 8287) || (c =? 12288) || (c =? 65279))%N.

Fixpoint trimStart (s : jsstring) : jsstring :=
  match s with
  | [] => []
  | c :: rest => if isWhiteSpace c then trimStart rest else s
  end.

Definition trimEnd (s : jsstring) : jsstring :=
  rev (trimStart (rev s)).

(** [s.trim()] *)
Definition trim (s : jsstring) : jsstring := trimEnd (trimStart s).

(** [s.split(sep)] for a one-unit separator; the empty string splits into
    one empty piece. *)
Fixpoint split (sep : N) (s : jsstring) : list jsstring :=
  match s with
  | [] => [[]]
  | c :: rest =>
      if (c =? sep)%N then [] :: split sep rest
      else match split sep rest with
           | piece :: pieces => (c :: piece) :: pieces
           | [] => [[c]]
           end
  end.

(** [pieces.join(sep)] *)
Fixpoint join (sep : jsstring) (pieces : list jsstring) : jsstring :=
  match pieces with
  | [] => []
  | [p] => p
  | p :: rest => p ++ sep ++ join sep rest
  end.

Definition NL : N := 10%N.

(** No line feed in the text. *)
Definition singleLine (s : jsstring) : bool :=
  forallb (λ c, negb (c =? NL)%N) s.

(** [a === b] on strings. *)
Fixpoint sameString (a b : jsstring) : bool :=
  match a, b with
  | [], [] => true
  | c :: a', d :: b' => (c =? d)%N && sameString a' b'
  | _, _ => false
  end.

End Js.

Import Js.

(* ================================================================== *)
(** * content/claude.js: the response-completion detector *)
(* ================================================================== *)

Module Detector.

(** The four constants declared at the top of [waitForClaudeResponse]. *)
Record Config := {
  POLL_MS : Z;
  STABLE_NEEDED : Z;
  MIN_NEW_CHARS : Z;
  TIMEOUT_MS : Z
}.

Definition defaults : Config :=
  {| POLL_MS := 500; STABLE_NEEDED := 4; MIN_NEW_CHARS := 50;
     TIMEOUT_MS := 90000 |}.

(** [extractResponse(beforeText, afterText)] *)
Definition extractResponse (beforeText afterText : jsstring) : jsstring :=
  let raw := trim (slice afterText (len beforeText)) in
  let meaningful :=
    filter (fun l => 10 < len l) (map trim (split NL raw)) in
  trim (join [NL] meaningful).

(** The mutable locals of the promise executor. *)
Record Poller := {
  phase : Z;
  lastLength : Z;
  stableCount : Z;
  elapsed : Z
}.

Inductive Settled :=
| Resolved (response : jsstring)
| Rejected (message : string).

Inductive TickResult :=
| Settle (o : Settled)
| Reschedule (p : Poller).

(** One run of [tick]; [currentText] is [scopeEl.innerText] at that timer
    firing. *)
Definition tick (cfg : Config) (snapshot : jsstring) (p : Poller)
    (currentText : jsstring) : TickResult :=
  if TIMEOUT_MS cfg <=? elapsed p then
    Settle (Rejected "Timed out waiting for Claude's response.")
  else if phase p =? 1 then
    if len snapshot + MIN_NEW_CHARS cfg <? len currentText then
      Reschedule {| phase := 2; lastLength := len currentText;
                    stableCount := stableCount p;
                    elapsed := elapsed p + POLL_MS cfg |}
    else
      Reschedule {| phase := phase p; lastLength := lastLength p;
                    stableCount := stableCount p;
                    elapsed := elapsed p + POLL_MS cfg |}
  else if len currentText =? lastLength p then
    if STABLE_NEEDED cfg <=? stableCount p + 1 then
      Settle (Resolved (extractResponse snapshot currentText))
    else
      Reschedule {| phase := phase p; lastLength := lastLength p;
                    stableCount := stableCount p + 1;
                    elapsed := elapsed p + POLL_MS cfg |}
  else
    Reschedule {| phase := phase p; lastLength := len currentText;
                  stableCount := 0;
                  elapsed := elapsed p + POLL_MS cfg |}.

(** What the promise has done after a finite run of timer firings: settled
    at the firing with the given index (from 0), or still waiting with the
    given locals. *)
Inductive Outcome :=
| Done (firing : nat) (o : Settled)
| Waiting (p : Poller).

(** The chain of [setTimeout(tick, POLL_MS)] over the texts the scope
    element shows at successive firings; [i] is the index of the next
    firing. *)
Fixpoint poll (cfg : Config) (snapshot : jsstring) (i : nat) (p : Poller)
    (texts : list jsstring) : Outcome :=
  match texts with
  | [] => Waiting p
  | t :: rest =>
      match tick cfg snapshot p t with
      | Settle o => Done i o
      | Reschedule p' => poll cfg snapshot (S i) p' rest
      end
  end.

(** The scope element as the poller sees it: its text when the promise is
    created and its text at each timer firing. *)
Record Scope := {
  textAtStart : jsstring;
  textAtTick : list jsstring
}.

Definition start (scopeEl : Scope) : Poller :=
  {| phase := 1; lastLength := len (textAtStart scopeEl);
     stableCount := 0; elapsed := 0 |}.

Definition waitFor (cfg : Config) (scopeEl : Scope) (snapshot : jsstring)
    : Outcome :=
  poll cfg snapshot 0 (start scopeEl) (textAtTick scopeEl).

(** [waitForClaudeResponse(scopeEl, snapshot)] *)
Definition waitForClaudeResponse (scopeEl : Scope) (snapshot : jsstring)
    : Outcome :=
  waitFor defaults scopeEl snapshot.

End Detector.

(* ================================================================== *)
(** * JSON text: [JSON.stringify] with a two-space gap, and [JSON.parse] *)
(* ================================================================== *)

Module Json.

(** The values [formatContextBlock] puts into its object literal: a string,
    or an array of strings. *)
Inductive Value :=
| Str (s : jsstring)
| Strs (items : list jsstring).

Definition QUOTE : N := 34%N.
Definition BACKSLASH : N := 92%N.

Definition isLeadingSurrogate (c : N) : bool :=
  ((55296 <=? c) && (c <=? 56319))%N.
Definition isTrailingSurrogate (c : N) : bool :=
  ((56320 <=? c) && (c <=? 57343))%N.

(** A lower-case hexadecimal digit, as [UnicodeEscape] prints it. *)
Definition hexDigit (d : N) : N :=
  (if d <? 10 then 48 + d else 87 + d)%N.

(** [UnicodeEscape(C)]: backslash, [u], four hexadecimal digits. *)
Definition unicodeEscape (c : N) : jsstring :=
  [BACKSLASH; 117%N;
   hexDigit (c / 4096 mod 16); hexDigit (c / 256 mod 16);
   hexDigit (c / 16 mod 16); hexDigit (c mod 16)].

(** One code point that is not part of a surrogate pair, as
    [QuoteJSONString] writes it. *)
Definition quoteUnit (c : N) : jsstring :=
  (if c =? 8 then [BACKSLASH; 98]
   else if c =? 9 then [BACKSLASH; 116]
   else if c =? 10 then [BACKSLASH; 110]
   else if c =? 12 then [BACKSLASH; 102]
   else if c =? 13 then [BACKSLASH; 114]
   else if c =? 34 then [BACKSLASH; 34]
   else if c =? 92 then [BACKSLASH; 92]
   else if (c <? 32) || isLeadingSurrogate c || isTrailingSurrogate c
        then unicodeEscape c
   else [c])%N.

(** The body of [QuoteJSONString]: the string is read code point by code
    point, so a well-formed surrogate pair is copied and a lone surrogate is
    escaped. *)
Fixpoint quoteUnits (s : jsstring) : jsstring :=
  match s with
  | [] => []
  | c :: rest =>
      if isLeadingSurrogate c then
        match rest with
        | d :: rest' =>
            if isTrailingSurrogate d then c :: d :: quoteUnits rest'
            else unicodeEscape c ++ quoteUnits rest
        | [] => unicodeEscape c
        end
      else quoteUnit c ++ quoteUnits rest
  end.

Definition quoteJSONString (s : jsstring) : jsstring :=
  QUOTE :: quoteUnits s ++ [QUOTE].

(** The gap of [JSON.stringify(value, null, 2)]. *)
Definition gap : jsstring := [32%N; 32%N].

(** [SerializeJSONArray] for an array of strings at indentation
    [indent]. *)
Definition serializeArray (indent : jsstring) (items : list jsstring)
    : jsstring :=
  match items with
  | [] => lit "[]"
  | _ =>
      let stepback := indent in
      let indent' := indent ++ gap in
      let separator := lit "," ++ [NL] ++ indent' in
      lit "[" ++ [NL] ++ indent'
        ++ join separator (map quoteJSONString items)
        ++ [NL] ++ stepback ++ lit "]"
  end.

Definition serializeValue (indent : jsstring) (v : Value) : jsstring :=
  match v with
  | Str s => quoteJSONString s
  | Strs items => serializeArray indent items
  end.

(** One property of an object: the quoted key, a colon, a space (the gap is
    not empty), the value. *)
Definition serializeMember (indent : jsstring) (kv : jsstring * Value)
    : jsstring :=
  quoteJSONString (fst kv) ++ lit ":" ++ lit " "
    ++ serializeValue indent (snd kv).

(** [SerializeJSONObject] at top level, for an object whose own properties
    are [members], in order. *)
Definition serializeObject (members : list (jsstring * Value)) : jsstring :=
  match members with
  | [] => lit "{}"
  | _ =>
      let indent' := gap in
      let separator := lit "," ++ [NL] ++ indent' in
      lit "{" ++ [NL] ++ indent'
        ++ join separator (map (serializeMember indent') members)
        ++ [NL] ++ lit "}"
  end.

(** ** Reading JSON text

    The JSON grammar of ECMAScript ([JSON.parse]) for the texts the
    formatter writes: objects whose values are string literals or arrays of
    string literals, with any JSON white space between tokens and every
    escape sequence of the grammar in string literals.  A reader returns
    [None] on text outside this grammar. *)

(** JSON white space: tab, line feed, carriage return, space. *)
Definition isJsonWs (c : N) : bool :=
  ((c =? 9) || (c =? 10) || (c =? 13) || (c =? 32))%N.

Fixpoint skipWs (s : jsstring) : jsstring :=
  match s with
  | [] => []
  | c :: rest => if isJsonWs c then skipWs rest else s
  end.

(** Text made of JSON white space only. *)
Definition blank (ws : jsstring) : Prop :=
  Forall (λ c, isJsonWs c = true) ws.

Definition hexValue (c : N) : option N :=
  (if (48 <=? c) && (c <=? 57) then Some (c - 48)
   else if (97 <=? c) && (c <=? 102) then Some (c - 87)
   else if (65 <=? c) && (c <=? 70) then Some (c - 55)
   else None)%N.

Definition hex4 (h1 h2 h3 h4 : N) : option N :=
  match hexValue h1, hexValue h2, hexValue h3, hexValue h4 with
  | Some a, Some b, Some c, Some d =>
      Some (a * 4096 + b * 256 + c * 16 + d)%N
  | _, _, _, _ => None
  end.

(** The character a single-letter escape stands for. *)
Definition unescape (e : N) : option N :=
  (if e =? 34 then Some 34
   else if e =? 92 then Some 92
   else if e =? 47 then Some 47
   else if e =? 98 then Some 8
   else if e =? 102 then Some 12
   else if e =? 110 then Some 10
   else if e =? 114 then Some 13
   else if e =? 116 then Some 9
   else None)%N.

Definition consUnit (c : N) (r : option (jsstring * jsstring))
    : option (jsstring * jsstring) :=
  match r with
  | Some (s, rest) => Some (c :: s, rest)
  | None => None
  end.

(** The characters of a string literal after its opening quote, up to and
    including the closing quote; returns the string and the text left. *)
Fixpoint parseChars (s : jsstring) : option (jsstring * jsstring) :=
  match s with
  | [] => None
  | c :: rest =>
      if (c =? 34)%N then Some ([], rest)
      else if (c =? 92)%N then
        match rest with
        | [] => None
        | e :: rest1 =>
            if (e =? 117)%N then
              match rest1 with
              | h1 :: h2 :: h3 :: h4 :: rest2 =>
                  match hex4 h1 h2 h3 h4 with
                  | Some u => consUnit u (parseChars rest2)
                  | None => None
                  end
              | _ => None
              end
            else
              match unescape e with
              | Some u => consUnit u (parseChars rest1)
              | None => None
              end
        end
      else if (c <? 32)%N then None
      else consUnit c (parseChars rest)
  end.

Definition parseString (s : jsstring) : option (jsstring * jsstring) :=
  match s with
  | c :: rest => if (c =? 34)%N then parseChars rest else None
  | [] => None
  end.

(** The elements of a non-empty array of strings, up to and including the
    closing bracket. *)
Fixpoint parseElements (fuel : nat) (s : jsstring)
    : option (list jsstring * jsstring) :=
  match fuel with
  | O => None
  | S fuel' =>
      match parseString (skipWs s) with
      | None => None
      | Some (item, rest) =>
          match skipWs rest with
          | c :: rest' =>
              if (c =? 44)%N then
                match parseElements fuel' rest' with
                | Some (items, rest'') => Some (item :: items, rest'')
                | None => None
                end
              else if (c =? 93)%N then Some ([item], rest')
              else None
          | [] => None
          end
      end
  end.

(** A value: a string literal, or an array of string literals; the leading
    white space has been skipped. *)
Definition parseValue (s : jsstring) : option (Value * jsstring) :=
  match s with
  | [] => None
  | c :: rest =>
      if (c =? 91)%N then
        match skipWs rest with
        | d :: rest' =>
            if (d =? 93)%N then Some (Strs [], rest')
            else
              match parseElements (length rest) rest with
              | Some (items, rest'') => Some (Strs items, rest'')
              | None => None
              end
        | [] => None
        end
      else
        match parseString s with
        | Some (str, rest') => Some (Str str, rest')
        | None => None
        end
  end.

(** The members of a non-empty object, up to and including the closing
    brace. *)
Fixpoint parseMembers (fuel : nat) (s : jsstring)
    : option (list (jsstring * Value) * jsstring) :=
  match fuel with
  | O => None
  | S fuel' =>
      match parseString (skipWs s) with
      | None => None
      | Some (key, rest) =>
          match skipWs rest with
          | c :: rest1 =>
              if (c =? 58)%N then
                match parseValue (skipWs rest1) with
                | None => None
                | Some (v, rest2) =>
                    match skipWs rest2 with
                    | d :: rest3 =>
                        if (d =? 44)%N then
                          match parseMembers fuel' rest3 with
                          | Some (members, rest4) =>
                              Some ((key, v) :: members, rest4)
                          | None => None
                          end
                        else if (d =? 125)%N then Some ([(key, v)], rest3)
                        else None
                    | [] => None
                    end
                end
              else None
          | [] => None
          end
      end
  end.

(** An object at the head of the text; returns its members in source order
    and the text after the closing brace. *)
Definition parseObject (s : jsstring)
    : option (list (jsstring * Value) * jsstring) :=
  match skipWs s with
  | c :: rest =>
      if (c =? 123)%N then
        match skipWs rest with
        | d :: rest' =>
            if (d =? 125)%N then Some ([], rest')
            else parseMembers (length rest) rest
        | [] => None
        end
      else None
  | [] => None
  end.

(** Property read on the parsed object: the last member with that key
    wins. *)
Fixpoint get (key : jsstring) (members : list (jsstring * Value))
    : option Value :=
  match members with
  | [] => None
  | (k, v) :: rest =>
      match get key rest with
      | Some v' => Some v'
      | None => if sameString k key then Some v else None
      end
  end.

End Json.

(* ================================================================== *)
(** * utils/format.js: the context block *)
(* ================================================================== *)

Module Format.

(** The summary object.  A field is [None] when the property is missing
    ([undefined]) or [null]; scalar fields hold text and sequence fields
    hold arrays of text. *)
Record Summary := {
  topic : option jsstring;
  user_goal : option jsstring;
  important_facts : option (list jsstring);
  decisions_made : option (list jsstring);
  current_task : option jsstring
}.

(** [x || ""] for a text property: the empty string is falsy. *)
Definition orEmptyString (x : option jsstring) : jsstring :=
  match x with
  | Some s => if truthy s then s else []
  | None => []
  end.

(** [x || []] for an array property: every array is truthy. *)
Definition orEmptyArray (x : option (list jsstring)) : list jsstring :=
  match x with
  | Some items => items
  | None => []
  end.

(** The five fields after defaulting. *)
Record Fields := {
  f_topic : jsstring;
  f_user_goal : jsstring;
  f_important_facts : list jsstring;
  f_decisions_made : list jsstring;
  f_current_task : jsstring
}.

(** The object literal passed to [JSON.stringify]. *)
Definition contextFields (summary : Summary) : Fields :=
  {| f_topic := orEmptyString (topic summary);
     f_user_goal := orEmptyString (user_goal summary);
     f_important_facts := orEmptyArray (important_facts summary);
     f_decisions_made := orEmptyArray (decisions_made summary);
     f_current_task := orEmptyString (current_task summary) |}.

(** Its own properties, in creation order. *)
Definition members (f : Fields) : list (jsstring * Json.Value) :=
  [ (lit "topic", Json.Str (f_topic f));
    (lit "user_goal", Json.Str (f_user_goal f));
    (lit "important_facts", Json.Strs (f_important_facts f));
    (lit "decisions_made", Json.Strs (f_decisions_made f));
    (lit "current_task", Json.Str (f_current_task f)) ].

Definition contextJson (summary : Summary) : jsstring :=
  Json.serializeObject (members (contextFields summary)).

Definition HEADER : jsstring :=
  lit "I am continuing a conversation from another AI. Here is the structured context:".

Definition CONTINUE_WITH : jsstring := lit "Please help me continue with: ".

Definition GENERIC_QUESTION : jsstring :=
  lit "What are your thoughts on the above context?".

(** [summary.current_task ? ... : ...] *)
Definition question (summary : Summary) : jsstring :=
  match current_task summary with
  | Some task =>
      if truthy task then CONTINUE_WITH ++ task else GENERIC_QUESTION
  | None => GENERIC_QUESTION
  end.

(** The array literal that is joined: header, blank, JSON, blank, closing
    question. *)
Definition blockLines (summary : Summary) : list jsstring :=
  [HEADER; []; contextJson summary; []; question summary].

(** [formatContextBlock(summary)] *)
Definition formatContextBlock (summary : Summary) : jsstring :=
  join [NL] (blockLines summary).

(** [summary.current_task] as a condition. *)
Definition hasTask (summary : Summary) : bool :=
  match current_task summary with
  | Some task => truthy task
  | None => false
  end.

(** ** Reading the structured section back *)

(** The text from the first opening brace on. *)
Fixpoint fromFirstBrace (s : jsstring) : jsstring :=
  match s with
  | [] => []
  | c :: rest => if (c =? 123)%N then s else fromFirstBrace rest
  end.

Definition getString (key : string) (o : list (jsstring * Json.Value))
    : option jsstring :=
  match Json.get (lit key) o with
  | Some (Json.Str s) => Some s
  | _ => None
  end.

Definition getStrings (key : string) (o : list (jsstring * Json.Value))
    : option (list jsstring) :=
  match Json.get (lit key) o with
  | Some (Json.Strs items) => Some items
  | _ => None
  end.

(** The reading side of the round trip: parse the JSON object embedded in
    a context block, as [JSON.parse] would from its opening brace, and read
    the five named properties. *)
Definition readFields (block : jsstring) : option Fields :=
  match Json.parseObject (fromFirstBrace block) with
  | None => None
  | Some (o, _) =>
      match getString "topic" o, getString "user_goal" o,
            getStrings "important_facts" o, getStrings "decisions_made" o,
            getString "current_task" o with
      | Some t, Some g, Some fs, Some ds, Some c =>
          Some {| f_topic := t; f_user_goal := g; f_important_facts := fs;
                  f_decisions_made := ds; f_current_task := c |}
      | _, _, _, _, _ => None
      end
  end.

(** The last line of a text. *)
Definition lastLine (s : jsstring) : jsstring :=
  List.last (split NL s) [].

End Format.

(* ================================================================== *)
(** * Messages *)
(* ================================================================== *)

Module Protocol.

(** Messages received by the service worker, by their [type]. *)
Inductive Message :=
| CAPTURE (summary : option Format.Summary)
| CLAUDE_READY
| CLAUDE_RESPONSE (content : jsstring)
| OTHER.

(** What [sendResponse] is called with: [{ type: "INJECT", contextBlock }]
    or [null]. *)
Inductive Response :=
| INJECT (contextBlock : jsstring)
| NULL.

End Protocol.

(* ================================================================== *)
(** * content/claude.js: orchestration *)
(* ================================================================== *)

Module AgentB.

Import Detector Protocol.

(** What the page does during one run of the flow. *)
Record Page := {
  inputFound : bool;      (* waitForInput() resolves with an element *)
  snapshotText : jsstring; (* scopeEl.innerText read before submitting *)
  submitted : bool;       (* the result of submitClaudeInput(inputEl) *)
  scopeEl : Scope
}.

Inductive Action :=
| InjectText (text : jsstring)
| ConsoleWarn (message : string)
| RuntimeSendMessage (m : Message).

Inductive Completion :=
| Returned
| Threw (message : string)
| Suspended.

(** [runInjectionFlow(contextBlock)]: the actions performed, in order, and
    how the async function ended. *)
Definition runInjectionFlow (page : Page) (contextBlock : jsstring)
    : list Action * Completion :=
  if negb (inputFound page) then
    ([], Threw "Claude input field not found after 15 seconds.")
  else
    let snapshot := snapshotText page in
    if negb (submitted page) then
      ([InjectText contextBlock],
       Threw "Could not submit to Claude — no send button found.")
    else
      match waitForClaudeResponse (scopeEl page) snapshot with
      | Waiting _ => ([InjectText contextBlock], Suspended)
      | Done _ (Rejected message) => ([InjectText contextBlock], Threw message)
      | Done _ (Resolved claudeResponse) =>
          if negb (truthy claudeResponse) then
            ([InjectText contextBlock;
              ConsoleWarn "[DuperMemory] Claude response captured was empty. Not sending back."],
             Returned)
          else
            ([InjectText contextBlock;
              RuntimeSendMessage (CLAUDE_RESPONSE claudeResponse)],
             Returned)
      end.

(** The contents of the [CLAUDE_RESPONSE] messages among some actions. *)
Fixpoint reported (actions : list Action) : list jsstring :=
  match actions with
  | [] => []
  | RuntimeSendMessage (CLAUDE_RESPONSE content) :: rest =>
      content :: reported rest
  | _ :: rest => reported rest
  end.

End AgentB.

(* ================================================================== *)
(** * background.js: the coordinator *)
(* ================================================================== *)

Module Coordinator.

Import Protocol.

(** A value of [pendingContext]. *)
Record ContextEntry := {
  contextBlock : jsstring;
  sourceTabId : Z
}.

(** The two module-level dictionaries, keyed by the Claude tab's id. *)
Record Tables := {
  pendingContext : gmap Z ContextEntry;
  pendingReview : gmap Z Z
}.

Definition empty : Tables :=
  {| pendingContext := ∅; pendingReview := ∅ |}.

(** What a handler asks the browser to do:
    - [sendResponse(r)];
    - [chrome.tabs.create({ url }, callback)], the callback given by the
      variables it closes over;
    - [chrome.tabs.sendMessage(tabId, { type: "INJECT_CRITIQUE", content })];
    - [console.error(message)]. *)
Inductive Effect :=
| SendResponse (r : Response)
| TabsCreate (url : string) (callback : ContextEntry)
| TabsSendMessage (tabId : Z) (content : jsstring)
| ConsoleError (message : string).

(** Truthiness of [sender.tab && sender.tab.id]: [None] is [undefined]. *)
Definition truthyTab (tabId : option Z) : option Z :=
  match tabId with
  | Some t => if t =? 0 then None else Some t
  | None => None
  end.

Definition CRITIQUE_PREFIX : jsstring :=
  lit "Another AI reviewed your answer. Revise your response considering this critique:"
    ++ [NL; NL].

(** [sendCritiqueToTab(tabId, claudeResponse)] *)
Definition sendCritiqueToTab (tabId : Z) (claudeResponse : jsstring)
    : list Effect :=
  let content := CRITIQUE_PREFIX ++ claudeResponse in
  [TabsSendMessage tabId content].

(** [handleCapture(summary, sourceTabId)]; [summary] is [None] when the
    value is falsy or not an object.  The callback passed to
    [chrome.tabs.create] closes over [contextBlock] and [sourceTabId]. *)
Definition handleCapture (summary : option Format.Summary)
    (sourceTabId : option Z) : list Effect :=
  match summary with
  | None => [ConsoleError "[DuperMemory] handleCapture: invalid summary"]
  | Some summary =>
      match truthyTab sourceTabId with
      | None =>
          [ConsoleError "[DuperMemory] handleCapture: could not identify source tab"]
      | Some sourceTabId =>
          let contextBlock := Format.formatContextBlock summary in
          [TabsCreate "https://claude.ai"
             {| contextBlock := contextBlock; sourceTabId := sourceTabId |}]
      end
  end.

(** The callback of [chrome.tabs.create]; [tab] is [None] when
    [chrome.runtime.lastError] is set. *)
Definition onTabCreated (st : Tables) (closure : ContextEntry)
    (tab : option Z) : Tables * list Effect :=
  match tab with
  | None => (st, [ConsoleError "[DuperMemory] Failed to open Claude tab:"])
  | Some id =>
      ({| pendingContext := <[id := closure]> (pendingContext st);
          pendingReview := pendingReview st |}, [])
  end.

(** The [chrome.runtime.onMessage] listener. *)
Definition onMessage (st : Tables) (message : Message)
    (senderTabId : option Z) : Tables * list Effect :=
  match message with
  | CAPTURE summary => (st, handleCapture summary senderTabId)
  | CLAUDE_READY =>
      match truthyTab senderTabId with
      | Some sender =>
          match pendingContext st !! sender with
          | Some entry =>
              ({| pendingContext := delete sender (pendingContext st);
                  pendingReview :=
                    <[sender := sourceTabId entry]> (pendingReview st) |},
               [SendResponse (INJECT (contextBlock entry))])
          | None => (st, [SendResponse NULL])
          end
      | None => (st, [SendResponse NULL])
      end
  | CLAUDE_RESPONSE content =>
      match truthyTab senderTabId with
      | Some sender =>
          match pendingReview st !! sender with
          | Some source =>
              if source =? 0 then (st, [])
              else
                ({| pendingContext := pendingContext st;
                    pendingReview := delete sender (pendingReview st) |},
                 sendCritiqueToTab source content)
          | None => (st, [])
          end
      | None => (st, [])
      end
  | OTHER => (st, [])
  end.

(** ** The coordinator in its browser *)

(** The service worker's tables together with what the browser holds for
    it: the [chrome.tabs.create] calls whose callback has not run yet, and
    the ids the browser has given to the tabs it created. *)
Record World := {
  tables : Tables;
  creating : list ContextEntry;
  created : gset Z
}.

Definition initial : World :=
  {| tables := empty; creating := []; created := ∅ |}.

Inductive Event :=
| Deliver (message : Message) (senderTabId : option Z)
| TabCallback (n : nat) (tab : option Z).

(** The closures of the [TabsCreate] effects, in call order. *)
Fixpoint requested (effects : list Effect) : list ContextEntry :=
  match effects with
  | [] => []
  | TabsCreate _ closure :: rest => closure :: requested rest
  | _ :: rest => requested rest
  end.

(** One turn of the event loop.  A message runs the listener.  A callback
    runs for the [n]-th outstanding creation; a tab the browser created
    carries an id it has not given out before.  [None]: the event cannot
    happen in this world. *)
Definition turn (w : World) (e : Event) : option (World * list Effect) :=
  match e with
  | Deliver message senderTabId =>
      let '(st, effects) := onMessage (tables w) message senderTabId in
      Some ({| tables := st;
               creating := creating w ++ requested effects;
               created := created w |}, effects)
  | TabCallback n tab =>
      match creating w !! n with
      | None => None
      | Some closure =>
          let fresh :=
            match tab with
            | Some id => bool_decide (id ∉ created w)
            | None => true
            end in
          if fresh then
            let '(st, effects) := onTabCreated (tables w) closure tab in
            Some ({| tables := st;
                     creating :=
                       (take n (creating w) ++ drop (S n) (creating w));
                     created :=
                       match tab with
                       | Some id => {[id]} ∪ created w
                       | None => created w
                       end |}, effects)
          else None
      end
  end.

(** A run of events from a world; the effects of all turns, in order. *)
Fixpoint run (w : World) (events : list Event)
    : option (World * list Effect) :=
  match events with
  | [] => Some (w, [])
  | e :: rest =>
      match turn w e with
      | None => None
      | Some (w', effects) =>
          match run w' rest with
          | None => None
          | Some (w'', effects') => Some (w'', effects ++ effects')
          end
      end
  end.

(** The worlds the coordinator can be in. *)
Definition reachable (w : World) : Prop :=
  ∃ events effects, run initial events = Some (w, effects).

(** What every reachable world satisfies: the keys of both tables are ids
    of tabs the browser created for the coordinator, no key is in both
    tables, and every recorded tab identity is truthy. *)
Record consistent (w : World) : Prop := {
  context_created :
    ∀ t, is_Some (pendingContext (tables w) !! t) → t ∈ created w;
  review_created :
    ∀ t, is_Some (pendingReview (tables w) !! t) → t ∈ created w;
  exclusive :
    ∀ t, pendingContext (tables w) !! t = None
         ∨ pendingReview (tables w) !! t = None;
  review_truthy :
    ∀ t s, pendingReview (tables w) !! t = Some s → t ≠ 0 ∧ s ≠ 0;
  context_truthy :
    ∀ t e, pendingContext (tables w) !! t = Some e → sourceTabId e ≠ 0;
  creating_truthy :
    Forall (λ e, sourceTabId e ≠ 0) (creating w)
}.

(** Where a Claude tab stands in the routing tables. *)
Inductive Stage :=
| AwaitingInjection
| AwaitingResult
| Absent
| Conflict.

Definition stage (st : Tables) (t : Z) : Stage :=
  match pendingContext st !! t, pendingReview st !! t with
  | Some _, None => AwaitingInjection
  | None, Some _ => AwaitingResult
  | None, None => Absent
  | Some _, Some _ => Conflict
  end.

(** The moves of the lifecycle: a tab enters only when the browser has just
    created it, then goes from awaiting injection to awaiting a result, then
    leaves. *)
Definition lifecycle (w w' : World) (t : Z) : Prop :=
  let a := stage (tables w) t in
  let b := stage (tables w') t in
  a = b
  ∨ (a = Absent ∧ b = AwaitingInjection
     ∧ (t ∉ created w) ∧ (t ∈ created w'))
  ∨ (a = AwaitingInjection ∧ b = AwaitingResult)
  ∨ (a = AwaitingResult ∧ b = Absent).

End Coordinator.

(* ================================================================== *)
(** * content/claude.js: the ready callback and the submit gesture *)
(* ================================================================== *)

Module ClaudePage.

Import Protocol AgentB.

(** The callback of
    [chrome.runtime.sendMessage({ type: "CLAUDE_READY" }, callback)]:
    the actions on the page and the lines written by [console.error], each
    a label and [err.message]. *)
Definition onReadyResponse (lastError : bool) (response : Response)
    (page : Page) : list Action * list (string * string) :=
  if lastError then ([], [])
  else
    match response with
    | NULL => ([], [])
    | INJECT contextBlock =>
        if negb (truthy contextBlock) then ([], [])
        else
          match runInjectionFlow page contextBlock with
          | (actions, Threw message) =>
              (actions,
               [("[DuperMemory] Injection flow failed:"%string, message)])
          | (actions, _) => (actions, [])
          end
    end.

(** What [submitClaudeInput] does to the page. *)
Inductive Gesture :=
| Click (button : nat)
| Focus
| KeydownEnter.

(** The input element as [submitClaudeInput] uses it: [container] is
    [inputEl.closest("form") || inputEl.parentElement], [None] when there is
    neither, and otherwise what
    [container.querySelector("button:not([disabled])")] finds. *)
Record InputEl := {
  container : option (option nat)
}.

(** [submitClaudeInput(inputEl)]; [byAriaLabel] is what the document query
    for an enabled send button finds. *)
Definition submitClaudeInput (byAriaLabel : option nat)
    (inputEl : option InputEl) : list Gesture * bool :=
  match byAriaLabel with
  | Some button => ([Click button], true)
  | None =>
      match inputEl with
      | Some el =>
          match container el with
          | Some (Some btn) => ([Click btn], true)
          | _ => ([Focus; KeydownEnter], true)
          end
      | None => ([], false)
      end
  end.

End ClaudePage.

(* ================================================================== *)
(** * content/chatgpt.js: capture and the button *)
(* ================================================================== *)

Module ChatGpt.

Import Protocol.

(** A message container as [captureMessages] reads it: its
    [data-message-author-role], and the [innerText] of its clone once the
    buttons, the [role="button"] elements and the [aria-hidden="true"]
    elements are removed. *)
Record MessageEl := {
  messageAuthorRole : jsstring;
  strippedInnerText : jsstring
}.

(** [extractContent(messageEl)] *)
Definition extractContent (messageEl : MessageEl) : jsstring :=
  trim (strippedInnerText messageEl).

Record Turn := {
  role : jsstring;
  content : jsstring
}.

(** [captureMessages()] over the containers in document order. *)
Fixpoint captureMessages (containers : list MessageEl) : list Turn :=
  match containers with
  | [] => []
  | el :: rest =>
      let role := messageAuthorRole el in
      if negb (sameString role (lit "user"))
         && negb (sameString role (lit "assistant"))
      then captureMessages rest
      else
        let content := extractContent el in
        if negb (truthy content) then captureMessages rest
        else {| role := role; content := content |} :: captureMessages rest
  end.

(** [s.startsWith(prefix)] *)
Fixpoint startsWith (s prefix : jsstring) : bool :=
  match prefix, s with
  | [], _ => true
  | p :: prefix', c :: s' => (c =? p)%N && startsWith s' prefix'
  | _ :: _, [] => false
  end.

(** [s.includes(needle)] *)
Fixpoint includes (s needle : jsstring) : bool :=
  startsWith s needle
  || match s with
     | [] => false
     | _ :: s' => includes s' needle
     end.

Inductive Action :=
| Alert (text : jsstring)
| SetBusy (busy : bool)
| Summarize
| RuntimeSendMessage (m : Message)
| ConsoleError.

(** What the page and the runtime do during one click: the containers on
    the page, whether the button is found by its id, what
    [summarizeConversation()] resolves with or the [message] of what it
    throws, and the [message] of what [chrome.runtime.sendMessage] throws,
    if it does. *)
Record Click := {
  containers : list MessageEl;
  buttonFound : bool;
  summarized : option Format.Summary + option jsstring;
  sendThrows : option (option jsstring)
}.

Definition NO_MESSAGES : jsstring :=
  lit "DuperMemory: No messages found." ++ [NL; NL]
    ++ lit "Make sure you are on a ChatGPT conversation page with at least one message.".

Definition RELOADED : jsstring :=
  lit "DuperMemory: Extension was reloaded." ++ [NL; NL]
    ++ lit "Please refresh this tab (F5) and try again.".

Definition FAILED : jsstring :=
  lit "DuperMemory: Summarization failed." ++ [NL; NL].

(** The [catch] block; [message] is [err.message], [None] when it is
    [undefined]. *)
Definition onError (message : option jsstring) : list Action :=
  ConsoleError ::
  match message with
  | Some m =>
      if truthy m && includes m (lit "Extension context invalidated")
      then [Alert RELOADED]
      else [Alert (FAILED ++ m)]
  | None => [Alert (FAILED ++ lit "undefined")]
  end.

(** [setBusy(btn, busy)] *)
Definition setBusy (btn : bool) (busy : bool) : list Action :=
  if negb btn then [] else [SetBusy busy].

(** [handleClick()] *)
Definition handleClick (c : Click) : list Action :=
  let messages := captureMessages (containers c) in
  if (length messages =? 0)%nat then [Alert NO_MESSAGES]
  else
    let btn := buttonFound c in
    setBusy btn true
      ++ (Summarize ::
          match summarized c with
          | inl summary =>
              match sendThrows c with
              | None => [RuntimeSendMessage (CAPTURE summary)]
              | Some message => onError message
              end
          | inr message => onError message
          end)
      ++ setBusy btn false.

(** The [CAPTURE] messages among some actions. *)
Fixpoint captured (actions : list Action) : list (option Format.Summary) :=
  match actions with
  | [] => []
  | RuntimeSendMessage (CAPTURE summary) :: rest => summary :: captured rest
  | _ :: rest => captured rest
  end.

(** The busy states set, in order. *)
Fixpoint busyStates (actions : list Action) : list bool :=
  match actions with
  | [] => []
  | SetBusy busy :: rest => busy :: busyStates rest
  | _ :: rest => busyStates rest
  end.

End ChatGpt.

(* ================================================================== *)
(** * background.js: what a run of the coordinator sends *)
(* ================================================================== *)

Module Routing.

Import Protocol Coordinator.

(** The [INJECT_CRITIQUE] messages among some effects: destination tab and
    content. *)
Fixpoint critiques (effects : list Effect) : list (Z * jsstring) :=
  match effects with
  | [] => []
  | TabsSendMessage tabId content :: rest => (tabId, content) :: critiques rest
  | _ :: rest => critiques rest
  end.

(** The reply given through [sendResponse], if any. *)
Fixpoint replyOf (effects : list Effect) : option Response :=
  match effects with
  | [] => None
  | SendResponse r :: _ => Some r
  | _ :: rest => replyOf rest
  end.

(** The tabs that sent a [CAPTURE] carrying an object, by their truthy
    id. *)
Fixpoint capturers (events : list Event) : list Z :=
  match events with
  | [] => []
  | Deliver (CAPTURE (Some _)) sender :: rest =>
      match truthyTab sender with
      | Some s => s :: capturers rest
      | None => capturers rest
      end
  | _ :: rest => capturers rest
  end.

(** The contents of the [CLAUDE_RESPONSE] messages delivered. *)
Fixpoint responses (events : list Event) : list jsstring :=
  match events with
  | [] => []
  | Deliver (CLAUDE_RESPONSE content) _ :: rest => content :: responses rest
  | _ :: rest => responses rest
  end.

(** The context blocks served through [sendResponse]. *)
Fixpoint served (effects : list Effect) : list jsstring :=
  match effects with
  | [] => []
  | SendResponse (INJECT block) :: rest => block :: served rest
  | _ :: rest => served rest
  end.

(** The summaries of the [CAPTURE] messages that carried an object and came
    from a tab with a truthy id. *)
Fixpoint summaries (events : list Event) : list Format.Summary :=
  match events with
  | [] => []
  | Deliver (CAPTURE (Some summary)) sender :: rest =>
      match truthyTab sender with
      | Some _ => summary :: summaries rest
      | None => summaries rest
      end
  | _ :: rest => summaries rest
  end.

(** Every context block recorded in the world satisfies [B]. *)
Definition blocked (B : jsstring → Prop) (w : World) : Prop :=
  (∀ t e, pendingContext (tables w) !! t = Some e → B (contextBlock e))
  ∧ Forall (λ e, B (contextBlock e)) (creating w).

(** Every source tab recorded in the world satisfies [S]. *)
Definition sourced (S : Z → Prop) (w : World) : Prop :=
  (∀ t e, pendingContext (tables w) !! t = Some e → S (sourceTabId e))
  ∧ (∀ t s, pendingReview (tables w) !! t = Some s → S s)
  ∧ Forall (λ e, S (sourceTabId e)) (creating w).

(** The sessions in flight: entries of both tables and tab creations
    waiting for their callback. *)
Definition inFlight (w : World) : nat :=
  (size (pendingContext (tables w)) + size (pendingReview (tables w))
   + length (creating w))%nat.

(** One session on top of a world: tab [s] captures, the browser creates
    tab [t] for it, [t] announces itself and later reports [content]. *)
Definition session (w : World) (summary : Format.Summary) (s t : Z)
    (content : jsstring) : list Event :=
  [ Deliver (CAPTURE (Some summary)) (Some s);
    TabCallback (length (creating w)) (Some t);
    Deliver CLAUDE_READY (Some t);
    Deliver (CLAUDE_RESPONSE content) (Some t) ].

End Routing.

(* ================================================================== *)
(** * content/claude.js: what the poller has seen *)
(* ================================================================== *)

Module Stability.

Import Detector.

(** What the poller has seen when it is about to run firing
    [length seen]: in phase 1 the counter is still 0; in phase 2 the last
    [stableCount + 1] texts all have the recorded length. *)
Definition window (seen : list jsstring) (p : Poller) : Prop :=
  (phase p = 1 ∧ stableCount p = 0)
  ∨ (phase p ≠ 1 ∧ 0 ≤ stableCount p
     ∧ ∀ j : nat, Z.of_nat j ≤ stableCount p →
         (j < length seen)%nat
         ∧ ∃ t, seen !! (length seen - 1 - j)%nat = Some t
                ∧ len t = lastLength p).

(** What the locals of a poller that is still waiting say about the texts
    read so far: the elapsed time counts them; the counter is 0 or below
    the number needed; phase 1 means that no text has exceeded the growth
    threshold, phase 2 that one has and that [lastLength] is the length of
    the latest text. *)
Definition tracks (cfg : Config) (snapshot : jsstring)
    (seen : list jsstring) (p : Poller) : Prop :=
  elapsed p = POLL_MS cfg * Z.of_nat (length seen)
  ∧ (stableCount p = 0 ∨ 0 < stableCount p < STABLE_NEEDED cfg)
  ∧ ((phase p = 1
      ∧ Forall (λ t, len t ≤ len snapshot + MIN_NEW_CHARS cfg) seen)
     ∨ (phase p = 2
        ∧ Exists (λ t, len snapshot + MIN_NEW_CHARS cfg < len t) seen
        ∧ ∃ t, last seen = Some t ∧ lastLength p = len t)).

End Stability.

(* ================================================================== *)
(** * Sample pages, summaries and runs *)
(* ================================================================== *)

Module Samples.

Import Detector.

(** A page whose main region holds 1000 characters before submission. *)
Definition baseline : jsstring := repeat 120%N 1000.

(** Sixty characters of streamed output: a button label, one paragraph,
    another button label. *)
Definition streamed : jsstring :=
  lit "Copy" ++ [NL]
    ++ lit "The plan is sound but step two needs a test first"
    ++ [NL] ++ lit "Share".

(** Reads of lengths 1000, 1020, 1060, 1060, 1060, 1060, 1060. *)
Definition streamingScope : Scope :=
  {| textAtStart := baseline;
     textAtTick :=
       [ baseline; baseline ++ take 20 streamed; baseline ++ streamed;
         baseline ++ streamed; baseline ++ streamed; baseline ++ streamed;
         baseline ++ streamed ] |}.

(** The same page three firings in: growth has been seen, nothing else. *)
Definition growingScope : Scope :=
  {| textAtStart := baseline;
     textAtTick :=
       [ baseline; baseline ++ take 20 streamed; baseline ++ streamed ] |}.

(** Output made of short interface labels only. *)
Definition labels : jsstring :=
  lit "Copy" ++ [NL] ++ lit "Share" ++ [NL] ++ lit "Retry" ++ [NL]
    ++ lit "Edit" ++ [NL] ++ lit "Copy" ++ [NL] ++ lit "Share" ++ [NL]
    ++ lit "Retry" ++ [NL] ++ lit "Edit" ++ [NL] ++ lit "Copy" ++ [NL]
    ++ lit "Share" ++ [NL] ++ lit "Retry".

Definition labelsPage : AgentB.Page :=
  {| AgentB.inputFound := true;
     AgentB.snapshotText := baseline;
     AgentB.submitted := true;
     AgentB.scopeEl :=
       {| textAtStart := baseline;
          textAtTick :=
            [ baseline ++ labels; baseline ++ labels; baseline ++ labels;
              baseline ++ labels; baseline ++ labels ] |} |}.

(** One review session: the ChatGPT tab 7 captures, the browser opens the
    Claude tab 12, which announces itself. *)
Definition summary : Format.Summary :=
  {| Format.topic := Some (lit "X");
     Format.user_goal := None;
     Format.important_facts := None;
     Format.decisions_made := Some [lit "use a queue"; lit "no retries"];
     Format.current_task := Some (lit "do Y") |}.

Definition chatTab : Z := 7.
Definition claudeTab : Z := 12.

Definition closure : Coordinator.ContextEntry :=
  {| Coordinator.contextBlock := Format.formatContextBlock summary;
     Coordinator.sourceTabId := chatTab |}.

Definition captureEvents : list Coordinator.Event :=
  [ Coordinator.Deliver (Protocol.CAPTURE (Some summary)) (Some chatTab) ].

Definition readyEvents : list Coordinator.Event :=
  captureEvents
    ++ [ Coordinator.TabCallback 0 (Some claudeTab);
         Coordinator.Deliver Protocol.CLAUDE_READY (Some claudeTab) ].

(** A page that never changes, watched for 181 firings. *)
Definition idleScope : Scope :=
  {| textAtStart := baseline; textAtTick := repeat baseline 181 |}.

(** A summary with nothing in it. *)
Definition blankSummary : Format.Summary :=
  {| Format.topic := None; Format.user_goal := None;
     Format.important_facts := None; Format.decisions_made := None;
     Format.current_task := None |}.

(** The Claude tab announces itself before the creation callback runs. *)
Definition raceEvents : list Coordinator.Event :=
  captureEvents
    ++ [ Coordinator.Deliver Protocol.CLAUDE_READY (Some claudeTab);
         Coordinator.TabCallback 0 (Some claudeTab) ].

(** A whole session: capture, tab created, ready, result. *)
Definition sessionEvents : list Coordinator.Event :=
  readyEvents
    ++ [ Coordinator.Deliver (Protocol.CLAUDE_RESPONSE streamed)
           (Some claudeTab) ].

(** A summary whose task runs over two lines. *)
Definition twoLineSummary : Format.Summary :=
  {| Format.topic := None; Format.user_goal := None;
     Format.important_facts := None; Format.decisions_made := None;
     Format.current_task := Some (lit "first" ++ [NL] ++ lit "then second") |}.

(** A summary whose task ends with a line that reads like the generic
    question. *)
Definition sneakySummary : Format.Summary :=
  {| Format.topic := None; Format.user_goal := None;
     Format.important_facts := None; Format.decisions_made := None;
     Format.current_task :=
       Some (lit "fix the parser" ++ [NL]
               ++ lit "What are your thoughts on the above context?") |}.

(** A summary whose texts are present and empty. *)
Definition emptyTextSummary : Format.Summary :=
  {| Format.topic := Some []; Format.user_goal := None;
     Format.important_facts := Some []; Format.decisions_made := None;
     Format.current_task := Some [] |}.

(** The world while the tab is being created ... *)
Definition capturing : Coordinator.World :=
  {| Coordinator.tables := Coordinator.empty;
     Coordinator.creating := [closure];
     Coordinator.created := ∅ |}.

(** ... and once the Claude tab has been served its context. *)
Definition reviewing : Coordinator.World :=
  {| Coordinator.tables :=
       {| Coordinator.pendingContext := ∅;
          Coordinator.pendingReview := {[ claudeTab := chatTab ]} |};
     Coordinator.creating := [];
     Coordinator.created := {[ claudeTab ]} |}.

(** The world once the tab is created and before it announces itself. *)
Definition awaiting : Coordinator.World :=
  {| Coordinator.tables :=
       {| Coordinator.pendingContext := {[ claudeTab := closure ]};
          Coordinator.pendingReview := ∅ |};
     Coordinator.creating := [];
     Coordinator.created := {[ claudeTab ]} |}.

(** The effects of a run, when it can happen. *)
Definition effectsOf (events : list Coordinator.Event)
    : list Coordinator.Effect :=
  match Coordinator.run Coordinator.initial events with
  | Some (_, effects) => effects
  | None => []
  end.

End Samples.

(* ================================================================== *)
(** * Properties of the response-completion detector *)
(* ================================================================== *)

Section DetectorFacts.

Import Detector.

Variable cfg : Config.
Variable snapshot : jsstring.

(** A firing settles the promise no earlier than the firing it starts
    from. *)
Lemma poll_done_index texts : ∀ i p k o,
  poll cfg snapshot i p texts = Done k o → (i ≤ k)%nat.
Proof.
  induction texts as [|t rest IH]; intros i p k o; simpl; [discriminate|].
  destruct (tick cfg snapshot p t) as [o'|p'].
  - intros [= <- _]. lia.
  - intros H. apply IH in H. lia.
Qed.

(** Polling a run of firings followed by another run. *)
Lemma poll_app texts more : ∀ i p,
  poll cfg snapshot i p (texts ++ more) =
  match poll cfg snapshot i p texts with
  | Waiting p' => poll cfg snapshot (i + length texts) p' more
  | Done k o => Done k o
  end.
Proof.
  induction texts as [|t rest IH]; intros i p; simpl.
  - by rewrite Nat.add_0_r.
  - destruct (tick cfg snapshot p t) as [o'|p']; [done|].
    rewrite IH. by replace (S i + length rest)%nat with (i + S (length rest))%nat by lia.
Qed.

(** From the growth phase, a successful resolution is preceded by a firing
    that saw the threshold exceeded and moved the poller to phase 2. *)
Lemma poll_growth_first texts : ∀ i p k response,
  phase p = 1 →
  poll cfg snapshot i p texts = Done k (Resolved response) →
  ∃ j text p2,
    (i + j < k)%nat ∧ texts !! j = Some text
    ∧ len snapshot + MIN_NEW_CHARS cfg < len text
    ∧ poll cfg snapshot i p (take (S j) texts) = Waiting p2 ∧ phase p2 = 2.
Proof.
  induction texts as [|t rest IH]; intros i p k response Hph Hpoll;
    simpl in Hpoll; [discriminate|].
  assert (Htick : tick cfg snapshot p t =
    if TIMEOUT_MS cfg <=? elapsed p
    then Settle (Rejected "Timed out waiting for Claude's response.")
    else if len snapshot + MIN_NEW_CHARS cfg <? len t
    then Reschedule {| phase := 2; lastLength := len t;
                       stableCount := stableCount p;
                       elapsed := elapsed p + POLL_MS cfg |}
    else Reschedule {| phase := phase p; lastLength := lastLength p;
                       stableCount := stableCount p;
                       elapsed := elapsed p + POLL_MS cfg |}).
  { unfold tick. rewrite Hph. reflexivity. }
  rewrite Htick in Hpoll.
  destruct (TIMEOUT_MS cfg <=? elapsed p) eqn:Hto; [discriminate|].
  destruct (len snapshot + MIN_NEW_CHARS cfg <? len t) eqn:Hgrow.
  - apply poll_done_index in Hpoll. apply Z.ltb_lt in Hgrow.
    exists 0%nat, t. eexists. simpl. rewrite Htick. simpl.
    split; [lia|]. split; [reflexivity|]. split; [lia|].
    split; reflexivity.
  - apply IH in Hpoll as (j & text & p2 & Hj & Hlk & Hlen & Hw & Hp2);
      [|done].
    exists (S j), text, p2.
    change (take (S (S j)) (t :: rest)) with (t :: take (S j) rest).
    simpl poll. rewrite Htick.
    repeat split; try done. lia.
Qed.

(** A length change seen by a firing in phase 2 zeroes the counter. *)
Lemma tick_change_resets p text :
  phase p = 2 →
  elapsed p < TIMEOUT_MS cfg →
  len text ≠ lastLength p →
  tick cfg snapshot p text =
    Reschedule {| phase := 2; lastLength := len text; stableCount := 0;
                  elapsed := elapsed p + POLL_MS cfg |}.
Proof.
  intros Hph Hel Hne. unfold tick. rewrite Hph. simpl.
  destruct (Z.leb_spec (TIMEOUT_MS cfg) (elapsed p)); [lia|].
  destruct (Z.eqb_spec (len text) (lastLength p)); [lia|done].
Qed.

End DetectorFacts.

(** C2. A successful resolution at firing [k] is preceded by a firing
    [j < k] whose text is longer than the snapshot by more than
    [MIN_NEW_CHARS], and that firing is the one that left the growth phase:
    after it the poller is in phase 2.  This holds for every threshold, the
    default 50 included. *)
Theorem success_needs_growth (cfg : Detector.Config)
    (scopeEl : Detector.Scope) (snapshot : jsstring) (k : nat)
    (response : jsstring) :
  Detector.waitFor cfg scopeEl snapshot
    = Detector.Done k (Detector.Resolved response) →
  ∃ j text p2,
    (j < k)%nat
    ∧ Detector.textAtTick scopeEl !! j = Some text
    ∧ len snapshot + Detector.MIN_NEW_CHARS cfg < len text
    ∧ Detector.poll cfg snapshot 0 (Detector.start scopeEl)
        (take (S j) (Detector.textAtTick scopeEl)) = Detector.Waiting p2
    ∧ Detector.phase p2 = 2.
Proof.
  unfold Detector.waitFor. intros H.
  apply poll_growth_first in H; [|done].
  destruct H as (j & text & p2 & Hj & Hrest). exists j, text, p2.
  split; [lia | exact Hrest].
Qed.

(** C4. While the detector is still running in phase 2, a firing that reads
    a text whose length differs from the recorded [lastLength] leaves the
    counter [stableCount] at 0 (and records the new length); this holds
    after every run of earlier firings. *)
Theorem length_change_resets_counter (cfg : Detector.Config)
    (scopeEl : Detector.Scope) (snapshot text : jsstring)
    (p : Detector.Poller) :
  Detector.waitFor cfg scopeEl snapshot = Detector.Waiting p →
  Detector.phase p = 2 →
  Detector.elapsed p < Detector.TIMEOUT_MS cfg →
  len text ≠ Detector.lastLength p →
  ∃ p',
    Detector.waitFor cfg
      {| Detector.textAtStart := Detector.textAtStart scopeEl;
         Detector.textAtTick := Detector.textAtTick scopeEl ++ [text] |}
      snapshot = Detector.Waiting p'
    ∧ Detector.stableCount p' = 0
    ∧ Detector.lastLength p' = len text
    ∧ Detector.phase p' = 2.
Proof.
  unfold Detector.waitFor. intros Hrun Hph Hel Hne. simpl.
  rewrite poll_app.
  change (Detector.start {| Detector.textAtStart := Detector.textAtStart scopeEl;
                            Detector.textAtTick := Detector.textAtTick scopeEl ++ [text] |})
    with (Detector.start scopeEl).
  rewrite Hrun. simpl. rewrite tick_change_resets by done.
  eexists. split; [reflexivity|]. done.
Qed.

Section Scenario.

Import Detector.

Variable scopeEl : Scope.
Variable snapshot : jsstring.
Hypothesis snapshot_length : len snapshot = 1000.
Hypothesis read_lengths :
  map len (textAtTick scopeEl) = [1000; 1020; 1060; 1060; 1060; 1060; 1060].

(** The seven texts behind the seven lengths. *)
Lemma scenario_texts :
  ∃ t1 t2 t3 t4 t5 t6 t7,
    textAtTick scopeEl = [t1; t2; t3; t4; t5; t6; t7]
    ∧ len t1 = 1000 ∧ len t2 = 1020 ∧ len t3 = 1060 ∧ len t4 = 1060
    ∧ len t5 = 1060 ∧ len t6 = 1060 ∧ len t7 = 1060.
Proof using read_lengths.
  pose proof read_lengths as H.
  destruct (textAtTick scopeEl) as [|t1 [|t2 [|t3 [|t4 [|t5 [|t6 [|t7 [|t8 l]]]]]]]];
    try discriminate H.
  injection H as H1 H2 H3 H4 H5 H6 H7.
  exists t1, t2, t3, t4, t5, t6, t7. done.
Qed.

(** [tick] under the default constants, by the lengths it compares. *)
Lemma tick_growth_stay p t :
  phase p = 1 → elapsed p < 90000 → len t ≤ 1050 →
  tick defaults snapshot p t =
    Reschedule {| phase := phase p; lastLength := lastLength p;
                  stableCount := stableCount p;
                  elapsed := elapsed p + 500 |}.
Proof using snapshot_length.
  intros Hph Hel Hlen. unfold tick. rewrite Hph, snapshot_length.
  cbn [TIMEOUT_MS MIN_NEW_CHARS STABLE_NEEDED POLL_MS defaults].
  change (1 =? 1) with true. change (1000 + 50) with 1050. cbv iota.
  destruct (Z.leb_spec 90000 (elapsed p)); [lia|].
  destruct (Z.ltb_spec 1050 (len t)); [lia|done].
Qed.

Lemma tick_growth_leave p t :
  phase p = 1 → elapsed p < 90000 → 1050 < len t →
  tick defaults snapshot p t =
    Reschedule {| phase := 2; lastLength := len t;
                  stableCount := stableCount p;
                  elapsed := elapsed p + 500 |}.
Proof using snapshot_length.
  intros Hph Hel Hlen. unfold tick. rewrite Hph, snapshot_length.
  cbn [TIMEOUT_MS MIN_NEW_CHARS STABLE_NEEDED POLL_MS defaults].
  change (1 =? 1) with true. change (1000 + 50) with 1050. cbv iota.
  destruct (Z.leb_spec 90000 (elapsed p)); [lia|].
  destruct (Z.ltb_spec 1050 (len t)); [done|lia].
Qed.

Lemma tick_stable_count p t :
  phase p = 2 → elapsed p < 90000 → len t = lastLength p →
  stableCount p + 1 < 4 →
  tick defaults snapshot p t =
    Reschedule {| phase := phase p; lastLength := lastLength p;
                  stableCount := stableCount p + 1;
                  elapsed := elapsed p + 500 |}.
Proof.
  intros Hph Hel Hlen Hcnt. unfold tick. rewrite Hph.
  cbn [TIMEOUT_MS MIN_NEW_CHARS STABLE_NEEDED POLL_MS defaults].
  change (2 =? 1) with false. cbv iota.
  destruct (Z.leb_spec 90000 (elapsed p)); [lia|].
  destruct (Z.eqb_spec (len t) (lastLength p)); [|lia].
  destruct (Z.leb_spec 4 (stableCount p + 1)); [lia|done].
Qed.

Lemma tick_stable_done p t :
  phase p = 2 → elapsed p < 90000 → len t = lastLength p →
  4 ≤ stableCount p + 1 →
  tick defaults snapshot p t = Settle (Resolved (extractResponse snapshot t)).
Proof.
  intros Hph Hel Hlen Hcnt. unfold tick. rewrite Hph.
  cbn [TIMEOUT_MS MIN_NEW_CHARS STABLE_NEEDED POLL_MS defaults].
  change (2 =? 1) with false. cbv iota.
  destruct (Z.leb_spec 90000 (elapsed p)); [lia|].
  destruct (Z.eqb_spec (len t) (lastLength p)); [|lia].
  destruct (Z.leb_spec 4 (stableCount p + 1)); [done|lia].
Qed.

End Scenario.

(** C7. Snapshot length 1000, threshold 50, reads of lengths
    1000, 1020, 1060, 1060, 1060, 1060, 1060 at successive firings: the
    poller is in phase 1 after the first and second read, in phase 2 with a
    zero counter after the third, still waiting with counter 3 after the
    sixth, and the seventh firing resolves with [extractResponse] of the
    seventh text, which filters the lines of that text from offset 1000
    on. *)
Theorem scenario_resolves_at_seventh_read (scopeEl : Detector.Scope)
    (snapshot : jsstring) :
  len snapshot = 1000 →
  map len (Detector.textAtTick scopeEl)
    = [1000; 1020; 1060; 1060; 1060; 1060; 1060] →
  let after n :=
    Detector.poll Detector.defaults snapshot 0 (Detector.start scopeEl)
      (take n (Detector.textAtTick scopeEl)) in
  ∃ final p1 p2 p3 p6,
    Detector.textAtTick scopeEl !! 6%nat = Some final
    ∧ after 1%nat = Detector.Waiting p1 ∧ Detector.phase p1 = 1
    ∧ after 2%nat = Detector.Waiting p2 ∧ Detector.phase p2 = 1
    ∧ after 3%nat = Detector.Waiting p3 ∧ Detector.phase p3 = 2
      ∧ Detector.stableCount p3 = 0
    ∧ after 6%nat = Detector.Waiting p6 ∧ Detector.phase p6 = 2
      ∧ Detector.stableCount p6 = 3
    ∧ Detector.waitForClaudeResponse scopeEl snapshot
      = Detector.Done 6 (Detector.Resolved
          (Detector.extractResponse snapshot final))
    ∧ Detector.extractResponse snapshot final
      = trim (join [NL]
          (filter (λ l, 10 < len l)
             (map trim (split NL (trim (drop 1000 final)))))).
Proof.
  intros Hsnap Hlens after.
  destruct (scenario_texts scopeEl Hlens)
    as (t1 & t2 & t3 & t4 & t5 & t6 & t7 & Htexts & H1 & H2 & H3 & H4 & H5 & H6 & H7).
  subst after. unfold Detector.waitForClaudeResponse, Detector.waitFor.
  rewrite Htexts. unfold Detector.start. simpl take. simpl Detector.poll.
  exists t7.
  rewrite !(tick_growth_stay snapshot Hsnap _ t1) by (simpl; lia).
  rewrite !(tick_growth_stay snapshot Hsnap _ t2) by (simpl; lia).
  rewrite !(tick_growth_leave snapshot Hsnap _ t3) by (simpl; lia).
  rewrite !(tick_stable_count snapshot _ t4) by (simpl; lia).
  rewrite !(tick_stable_count snapshot _ t5) by (simpl; lia).
  rewrite !(tick_stable_count snapshot _ t6) by (simpl; lia).
  rewrite (tick_stable_done snapshot _ t7) by (simpl; lia).
  do 4 eexists.
  split; [reflexivity|].
  split; [reflexivity|]. split; [reflexivity|].
  split; [reflexivity|]. split; [reflexivity|].
  split; [reflexivity|]. split; [reflexivity|]. split; [reflexivity|].
  split; [reflexivity|]. split; [reflexivity|]. split; [reflexivity|].
  split; [reflexivity|].
  unfold Detector.extractResponse, slice. rewrite Hsnap. reflexivity.
Qed.

Lemma success_needs_growth_witness :
  ∃ j text p2,
    (j < 6)%nat
    ∧ Detector.textAtTick Samples.streamingScope !! j = Some text
    ∧ len Samples.baseline + 50 < len text
    ∧ Detector.poll Detector.defaults Samples.baseline 0
        (Detector.start Samples.streamingScope)
        (take (S j) (Detector.textAtTick Samples.streamingScope))
      = Detector.Waiting p2
    ∧ Detector.phase p2 = 2.
Proof.
  apply (success_needs_growth Detector.defaults Samples.streamingScope
           Samples.baseline 6
           (lit "The plan is sound but step two needs a test first")).
  vm_compute. reflexivity.
Defined.

Lemma length_change_resets_counter_witness :
  ∃ p',
    Detector.waitFor Detector.defaults
      {| Detector.textAtStart := Samples.baseline;
         Detector.textAtTick :=
           Detector.textAtTick Samples.growingScope
             ++ [Samples.baseline ++ Samples.streamed ++ Samples.labels] |}
      Samples.baseline = Detector.Waiting p'
    ∧ Detector.stableCount p' = 0
    ∧ Detector.lastLength p' = len (Samples.baseline ++ Samples.streamed ++ Samples.labels)
    ∧ Detector.phase p' = 2.
Proof.
  apply (length_change_resets_counter Detector.defaults Samples.growingScope
           Samples.baseline (Samples.baseline ++ Samples.streamed ++ Samples.labels)
           {| Detector.phase := 2; Detector.lastLength := 1060;
              Detector.stableCount := 0; Detector.elapsed := 1500 |}).
  - vm_compute. reflexivity.
  - reflexivity.
  - simpl. lia.
  - vm_compute. intros H. discriminate H.
Defined.

Lemma scenario_resolves_at_seventh_read_witness :
  len Samples.baseline = 1000
  ∧ map len (Detector.textAtTick Samples.streamingScope)
    = [1000; 1020; 1060; 1060; 1060; 1060; 1060]
  ∧ ∃ final,
      Detector.textAtTick Samples.streamingScope !! 6%nat = Some final
      ∧ Detector.waitForClaudeResponse Samples.streamingScope Samples.baseline
        = Detector.Done 6 (Detector.Resolved
            (Detector.extractResponse Samples.baseline final)).
Proof.
  split; [vm_compute; reflexivity|]. split; [vm_compute; reflexivity|].
  destruct (scenario_resolves_at_seventh_read Samples.streamingScope
              Samples.baseline)
    as (final & p1 & p2 & p3 & p6 & Hfinal & _ & _ & _ & _ & _ & _ & _ & _ & _ & _ & Hdone & _).
  - vm_compute. reflexivity.
  - vm_compute. reflexivity.
  - exists final. split; assumption.
Defined.

(** The extraction keeps the paragraph and drops the two button labels. *)
Example extractResponse_keeps_long_lines :
  Detector.extractResponse []
    (lit "Copy" ++ [NL]
       ++ lit "This is a real response paragraph that is long enough."
       ++ [NL] ++ lit "Share")
  = lit "This is a real response paragraph that is long enough.".
Proof. vm_compute. reflexivity. Qed.

Example streaming_response :
  Detector.waitForClaudeResponse Samples.streamingScope Samples.baseline
  = Detector.Done 6 (Detector.Resolved
      (lit "The plan is sound but step two needs a test first")).
Proof. vm_compute. reflexivity. Qed.

(* ================================================================== *)
(** * Properties of the injection flow *)
(* ================================================================== *)

(** Whatever the page does, a [CLAUDE_RESPONSE] message carries a non-empty
    content. *)
Lemma reported_nonempty (page : AgentB.Page) (contextBlock : jsstring) :
  Forall (λ content, content ≠ [])
    (AgentB.reported (AgentB.runInjectionFlow page contextBlock).1).
Proof.
  unfold AgentB.runInjectionFlow.
  destruct (AgentB.inputFound page); simpl; [|constructor].
  destruct (AgentB.submitted page); simpl; [|constructor].
  destruct (Detector.waitForClaudeResponse _ _) as [k [r|m]|p]; simpl;
    try constructor.
  destruct r as [|c r]; simpl; repeat constructor. discriminate.
Qed.

(** C8. When the flow gets as far as the detector and the detector resolves
    with an empty extraction, the flow returns after injecting and logging
    a warning: it sends no [CLAUDE_RESPONSE] message. *)
Theorem empty_extraction_not_reported (page : AgentB.Page)
    (contextBlock : jsstring) (k : nat) :
  AgentB.inputFound page = true →
  AgentB.submitted page = true →
  Detector.waitForClaudeResponse (AgentB.scopeEl page)
    (AgentB.snapshotText page) = Detector.Done k (Detector.Resolved []) →
  (AgentB.runInjectionFlow page contextBlock).2 = AgentB.Returned
  ∧ AgentB.reported (AgentB.runInjectionFlow page contextBlock).1 = []
  ∧ ∀ a, a ∈ (AgentB.runInjectionFlow page contextBlock).1 →
         ∀ m, a ≠ AgentB.RuntimeSendMessage m.
Proof.
  intros Hin Hsub Hwait. unfold AgentB.runInjectionFlow.
  rewrite Hin, Hsub, Hwait. simpl. split; [done|]. split; [done|].
  intros a Ha m. apply list_elem_of_In in Ha. simpl in Ha.
  destruct Ha as [<-|[<-|[]]]; discriminate.
Qed.

Lemma empty_extraction_not_reported_witness :
  (AgentB.runInjectionFlow Samples.labelsPage (lit "context")).2
    = AgentB.Returned
  ∧ AgentB.reported
      (AgentB.runInjectionFlow Samples.labelsPage (lit "context")).1 = []
  ∧ ∀ a, a ∈ (AgentB.runInjectionFlow Samples.labelsPage (lit "context")).1 →
         ∀ m, a ≠ AgentB.RuntimeSendMessage m.
Proof.
  apply (empty_extraction_not_reported Samples.labelsPage (lit "context") 4).
  - reflexivity.
  - reflexivity.
  - vm_compute. reflexivity.
Defined.

(* ================================================================== *)
(** * Properties of the coordinator *)
(* ================================================================== *)

Section CoordinatorFacts.

Import Protocol Coordinator.

Lemma truthyTab_Some tabId t : truthyTab tabId = Some t → tabId = Some t ∧ t ≠ 0.
Proof.
  destruct tabId as [t'|]; simpl; [|discriminate].
  destruct (Z.eqb_spec t' 0); [discriminate|]. by intros [= <-].
Qed.

Lemma truthyTab_nonzero t : t ≠ 0 → truthyTab (Some t) = Some t.
Proof. intros H. simpl. by destruct (Z.eqb_spec t 0). Qed.

Lemma handleCapture_truthy summary sender :
  Forall (λ e, sourceTabId e ≠ 0) (requested (handleCapture summary sender)).
Proof.
  unfold handleCapture. destruct summary as [summary|]; simpl; [|constructor].
  destruct (truthyTab sender) as [t|] eqn:Ht; simpl; [|constructor].
  apply truthyTab_Some in Ht as [_ Ht]. repeat constructor. exact Ht.
Qed.

Lemma consistent_initial : consistent initial.
Proof.
  split; simpl; try (intros t; rewrite lookup_empty); try constructor;
    try (intros [x Hx]; discriminate); try done.
Qed.

Lemma consistent_deliver w message sender w' effects :
  consistent w →
  turn w (Deliver message sender) = Some (w', effects) →
  consistent w'.
Proof.
  intros [Hc Hr Hx Hrt Hct Hcr]. simpl.
  destruct message as [summary| |content|]; simpl.
  - intros [= <- <-]. split; simpl; try done.
    apply Forall_app. split; [done|apply handleCapture_truthy].
  - destruct (truthyTab sender) as [t|] eqn:Ht; simpl.
    + apply truthyTab_Some in Ht as [_ Ht].
      destruct (pendingContext (tables w) !! t) as [entry|] eqn:Hentry; simpl.
      * intros [= <- <-]. split; simpl.
        -- intros u [x Hu]. apply lookup_delete_Some in Hu as [_ Hu]. eauto.
        -- intros u [x Hu]. apply lookup_insert_Some in Hu as [[<- _]|[_ Hu]];
             eauto.
        -- intros u. destruct (decide (t = u)) as [<-|Hne].
           ++ left. apply lookup_delete_eq.
           ++ rewrite lookup_delete_ne, lookup_insert_ne by done. apply Hx.
        -- intros u s Hu. apply lookup_insert_Some in Hu as [[<- <-]|[_ Hu]];
             eauto.
        -- intros u e Hu. apply lookup_delete_Some in Hu as [_ Hu]. eauto.
        -- by rewrite app_nil_r.
      * intros [= <- <-]. split; simpl; try done. by rewrite app_nil_r.
    + intros [= <- <-]. split; simpl; try done. by rewrite app_nil_r.
  - destruct (truthyTab sender) as [t|] eqn:Ht; simpl.
    + destruct (pendingReview (tables w) !! t) as [s|] eqn:Hs; simpl.
      * destruct (s =? 0); simpl; intros [= <- <-]; split; simpl; try done;
          try (by rewrite app_nil_r).
        -- intros u [x Hu]. apply lookup_delete_Some in Hu as [_ Hu]. eauto.
        -- intros u. destruct (Hx u) as [H|H]; [by left|right].
           destruct (decide (t = u)) as [<-|Hne];
             [apply lookup_delete_eq | by rewrite lookup_delete_ne].
        -- intros u s' Hu. apply lookup_delete_Some in Hu as [_ Hu]. eauto.
      * intros [= <- <-]. split; simpl; try done. by rewrite app_nil_r.
    + intros [= <- <-]. split; simpl; try done. by rewrite app_nil_r.
  - intros [= <- <-]. split; simpl; try done. by rewrite app_nil_r.
Qed.

Lemma Forall_remove_nth {A} (P : A → Prop) (l : list A) n :
  Forall P l → Forall P (take n l ++ drop (S n) l).
Proof.
  intros H. apply Forall_app. split; [by apply Forall_take|by apply Forall_drop].
Qed.

Lemma consistent_callback w n tab w' effects :
  consistent w →
  turn w (TabCallback n tab) = Some (w', effects) →
  consistent w'.
Proof.
  intros [Hc Hr Hx Hrt Hct Hcr]. simpl.
  destruct (creating w !! n) as [closure|] eqn:Hn; [|discriminate].
  assert (Hclosure : sourceTabId closure ≠ 0).
  { eapply Forall_lookup_1 in Hcr; eauto. }
  destruct tab as [id|]; simpl.
  - destruct (bool_decide (id ∉ created w)) eqn:Hfresh; [|discriminate].
    apply bool_decide_eq_true in Hfresh.
    intros [= <- <-]. split; simpl.
    + intros u [x Hu]. apply lookup_insert_Some in Hu as [[<- _]|[_ Hu]].
      * by apply elem_of_union_l, elem_of_singleton.
      * apply elem_of_union_r. eauto.
    + intros u Hu. apply elem_of_union_r. eauto.
    + intros u. destruct (decide (id = u)) as [<-|Hne].
      * right. destruct (pendingReview (tables w) !! id) eqn:Hid; [|done].
        exfalso. apply Hfresh. eauto.
      * rewrite lookup_insert_ne by done. apply Hx.
    + done.
    + intros u e Hu. apply lookup_insert_Some in Hu as [[_ <-]|[_ Hu]]; eauto.
    + by apply Forall_remove_nth.
  - intros [= <- <-]. split; simpl; try done. by apply Forall_remove_nth.
Qed.

Lemma consistent_turn w e w' effects :
  consistent w → turn w e = Some (w', effects) → consistent w'.
Proof.
  destruct e; [apply consistent_deliver|apply consistent_callback].
Qed.

Lemma consistent_run events : ∀ w w' effects,
  consistent w → run w events = Some (w', effects) → consistent w'.
Proof.
  induction events as [|e rest IH]; intros w w' effects Hw; simpl.
  - by intros [= <- _].
  - destruct (turn w e) as [[w1 eff1]|] eqn:Hturn; [|discriminate].
    destruct (run w1 rest) as [[w2 eff2]|] eqn:Hrun; [|discriminate].
    intros [= <- _]. eapply IH; [|exact Hrun].
    eapply consistent_turn; eauto.
Qed.

Lemma reachable_consistent w : reachable w → consistent w.
Proof.
  intros (events & effects & Hrun).
  eapply consistent_run; [apply consistent_initial|exact Hrun].
Qed.

End CoordinatorFacts.

Lemma reviewing_reachable : Coordinator.reachable Samples.reviewing.
Proof.
  exists Samples.readyEvents, (Samples.effectsOf Samples.readyEvents).
  vm_compute. reflexivity.
Defined.

Lemma capturing_reachable : Coordinator.reachable Samples.capturing.
Proof.
  exists Samples.captureEvents, (Samples.effectsOf Samples.captureEvents).
  vm_compute. reflexivity.
Defined.

(** The race: the Claude tab asks before its entry is recorded, is told
    there is no work, and its entry is recorded afterwards. *)
Example ready_before_callback :
  Coordinator.run Coordinator.initial Samples.raceEvents
  = Some ({| Coordinator.tables :=
               {| Coordinator.pendingContext :=
                    {[ Samples.claudeTab := Samples.closure ]};
                  Coordinator.pendingReview := ∅ |};
             Coordinator.creating := [];
             Coordinator.created := {[ Samples.claudeTab ]} |},
          [ Coordinator.TabsCreate "https://claude.ai" Samples.closure;
            Coordinator.SendResponse Protocol.NULL ]).
Proof. vm_compute. reflexivity. Qed.

(** A whole session ends with both tables empty and the critique sent to
    the tab that captured. *)
Example whole_session :
  Coordinator.run Coordinator.initial Samples.sessionEvents
  = Some ({| Coordinator.tables := Coordinator.empty;
             Coordinator.creating := [];
             Coordinator.created := {[ Samples.claudeTab ]} |},
          [ Coordinator.TabsCreate "https://claude.ai" Samples.closure;
            Coordinator.SendResponse
              (Protocol.INJECT (Format.formatContextBlock Samples.summary));
            Coordinator.TabsSendMessage Samples.chatTab
              (Coordinator.CRITIQUE_PREFIX ++ Samples.streamed) ]).
Proof. vm_compute. reflexivity. Qed.

Section Lifecycle.

Import Protocol Coordinator.

(** A turn moves each tab along the lifecycle, or leaves it where it is. *)
Lemma turn_lifecycle w e w' effects :
  consistent w → turn w e = Some (w', effects) → ∀ t, lifecycle w w' t.
Proof.
  intros [Hc Hr Hx Hrt Hct Hcr] Hturn u. unfold lifecycle, stage.
  destruct e as [message sender|n tab]; simpl in Hturn.
  - destruct message as [summary| |content|]; simpl in Hturn.
    + injection Hturn as <- _. by left.
    + destruct (truthyTab sender) as [t|]; simpl in Hturn;
        [|injection Hturn as <- _; by left].
      destruct (pendingContext (tables w) !! t) as [entry|] eqn:Hentry;
        simpl in Hturn; injection Hturn as <- _; simpl; [|by left].
      destruct (decide (t = u)) as [<-|Hne].
      * right. right. left.
        destruct (Hx t) as [H|H]; [congruence|].
        by rewrite Hentry, H, lookup_delete_eq, lookup_insert_eq.
      * left. by rewrite lookup_delete_ne, lookup_insert_ne.
    + destruct (truthyTab sender) as [t|]; simpl in Hturn;
        [|injection Hturn as <- _; by left].
      destruct (pendingReview (tables w) !! t) as [s|] eqn:Hs;
        simpl in Hturn; [|injection Hturn as <- _; by left].
      destruct (s =? 0); injection Hturn as <- _; simpl; [by left|].
      destruct (decide (t = u)) as [<-|Hne].
      * right. right. right.
        destruct (Hx t) as [H|H]; [|congruence].
        by rewrite Hs, H, lookup_delete_eq.
      * left. by rewrite lookup_delete_ne.
    + injection Hturn as <- _. by left.
  - destruct (creating w !! n) as [closure|]; [|discriminate].
    destruct tab as [id|]; simpl in Hturn;
      [|injection Hturn as <- _; by left].
    destruct (bool_decide (id ∉ created w)) eqn:Hfresh; [|discriminate].
    apply bool_decide_eq_true in Hfresh.
    injection Hturn as <- _. simpl.
    destruct (decide (id = u)) as [<-|Hne].
    + right. left.
      assert (pendingContext (tables w) !! id = None) as ->.
      { destruct (pendingContext (tables w) !! id) eqn:H; [|done].
        exfalso. apply Hfresh. eauto. }
      assert (pendingReview (tables w) !! id = None) as ->.
      { destruct (pendingReview (tables w) !! id) eqn:H; [|done].
        exfalso. apply Hfresh. eauto. }
      rewrite lookup_insert_eq. repeat split; [done|].
      by apply elem_of_union_l, elem_of_singleton.
    + left. by rewrite lookup_insert_ne.
Qed.

End Lifecycle.

(** C1. In every world reachable by messages and tab-creation callbacks
    (a created tab carrying an id the browser has not given out before), no
    tab id is a key of both [pendingContext] and [pendingReview]; and every
    further turn moves a tab only along the lifecycle
    absent (just created) → awaiting injection → awaiting result →
    absent. *)
Theorem tables_never_overlap (w : Coordinator.World) :
  Coordinator.reachable w →
  (∀ t, ¬ (is_Some (Coordinator.pendingContext (Coordinator.tables w) !! t)
           ∧ is_Some (Coordinator.pendingReview (Coordinator.tables w) !! t)))
  ∧ (∀ t, Coordinator.stage (Coordinator.tables w) t ≠ Coordinator.Conflict)
  ∧ (∀ e w' effects,
       Coordinator.turn w e = Some (w', effects) →
       ∀ t, Coordinator.lifecycle w w' t).
Proof.
  intros Hreach. apply reachable_consistent in Hreach.
  split; [|split].
  - intros t [[e He] [s Hs]].
    destruct (Coordinator.exclusive w Hreach t); congruence.
  - intros t. unfold Coordinator.stage.
    destruct (Coordinator.exclusive w Hreach t) as [-> | ->];
      [|destruct (Coordinator.pendingContext _ !! t)];
      try destruct (Coordinator.pendingReview _ !! t); discriminate.
  - intros e w' effects. by apply turn_lifecycle.
Qed.

Lemma tables_never_overlap_witness :
  (∀ t, ¬ (is_Some (Coordinator.pendingContext
                      (Coordinator.tables Samples.reviewing) !! t)
           ∧ is_Some (Coordinator.pendingReview
                        (Coordinator.tables Samples.reviewing) !! t)))
  ∧ (∀ t, Coordinator.stage (Coordinator.tables Samples.reviewing) t
          ≠ Coordinator.Conflict)
  ∧ (∀ e w' effects,
       Coordinator.turn Samples.reviewing e = Some (w', effects) →
       ∀ t, Coordinator.lifecycle Samples.reviewing w' t).
Proof.
  apply (tables_never_overlap Samples.reviewing).
  exists Samples.readyEvents, (Samples.effectsOf Samples.readyEvents).
  vm_compute. reflexivity.
Defined.

(** C3. A [CLAUDE_READY] from a sender whose tab id has no [pendingContext]
    entry is answered with [sendResponse(null)], and the world is left as it
    was: both tables, and the tab creations still waiting for their
    callback, which is where the entry of a tab that announces itself too
    early still is. *)
Theorem ready_without_context_is_no_work (w : Coordinator.World)
    (sender : option Z) :
  (∀ t, sender = Some t →
        Coordinator.pendingContext (Coordinator.tables w) !! t = None) →
  Coordinator.turn w (Coordinator.Deliver Protocol.CLAUDE_READY sender)
    = Some (w, [Coordinator.SendResponse Protocol.NULL])
  ∧ Coordinator.onMessage (Coordinator.tables w) Protocol.CLAUDE_READY sender
    = (Coordinator.tables w, [Coordinator.SendResponse Protocol.NULL]).
Proof.
  intros Hnone.
  assert (H : Coordinator.onMessage (Coordinator.tables w)
                Protocol.CLAUDE_READY sender
              = (Coordinator.tables w,
                 [Coordinator.SendResponse Protocol.NULL])).
  { simpl. destruct (Coordinator.truthyTab sender) as [t|] eqn:Ht; [|done].
    apply truthyTab_Some in Ht as [Ht _]. by rewrite (Hnone t Ht). }
  split; [|exact H].
  unfold Coordinator.turn. rewrite H. simpl. rewrite app_nil_r.
  by destruct w.
Qed.

Lemma ready_without_context_is_no_work_witness :
  Coordinator.turn Samples.capturing
    (Coordinator.Deliver Protocol.CLAUDE_READY (Some Samples.claudeTab))
    = Some (Samples.capturing, [Coordinator.SendResponse Protocol.NULL])
  ∧ Coordinator.onMessage (Coordinator.tables Samples.capturing)
      Protocol.CLAUDE_READY (Some Samples.claudeTab)
    = (Coordinator.tables Samples.capturing,
       [Coordinator.SendResponse Protocol.NULL]).
Proof.
  apply (ready_without_context_is_no_work Samples.capturing
           (Some Samples.claudeTab)).
  intros t [= <-]. vm_compute. reflexivity.
Defined.

(** C5. In a reachable world where the sender's tab id has a
    [pendingReview] entry recording source tab [s], a [CLAUDE_RESPONSE]
    deletes that entry, changes nothing else, and sends exactly one message
    to tab [s]: the [INJECT_CRITIQUE] whose content is the review
    instruction followed by the response. *)
Theorem result_forwards_critique (w : Coordinator.World) (t s : Z)
    (content : jsstring) :
  Coordinator.reachable w →
  Coordinator.pendingReview (Coordinator.tables w) !! t = Some s →
  ∃ w',
    Coordinator.turn w
      (Coordinator.Deliver (Protocol.CLAUDE_RESPONSE content) (Some t))
      = Some (w', [Coordinator.TabsSendMessage s
                     (Coordinator.CRITIQUE_PREFIX ++ content)])
    ∧ Coordinator.pendingReview (Coordinator.tables w')
      = delete t (Coordinator.pendingReview (Coordinator.tables w))
    ∧ Coordinator.pendingReview (Coordinator.tables w') !! t = None
    ∧ Coordinator.pendingContext (Coordinator.tables w')
      = Coordinator.pendingContext (Coordinator.tables w)
    ∧ Coordinator.creating w' = Coordinator.creating w
    ∧ Coordinator.created w' = Coordinator.created w.
Proof.
  intros Hreach Hs. apply reachable_consistent in Hreach.
  destruct (Coordinator.review_truthy w Hreach t s Hs) as [Ht Hs0].
  unfold Coordinator.turn, Coordinator.onMessage.
  rewrite (truthyTab_nonzero t Ht), Hs.
  destruct (Z.eqb_spec s 0) as [|_]; [done|].
  eexists. split; [reflexivity|]. simpl.
  rewrite lookup_delete_eq, app_nil_r. done.
Qed.

Lemma result_forwards_critique_witness :
  ∃ w',
    Coordinator.turn Samples.reviewing
      (Coordinator.Deliver (Protocol.CLAUDE_RESPONSE Samples.streamed)
         (Some Samples.claudeTab))
      = Some (w', [Coordinator.TabsSendMessage Samples.chatTab
                     (Coordinator.CRITIQUE_PREFIX ++ Samples.streamed)])
    ∧ Coordinator.pendingReview (Coordinator.tables w')
      = delete Samples.claudeTab
          (Coordinator.pendingReview (Coordinator.tables Samples.reviewing))
    ∧ Coordinator.pendingReview (Coordinator.tables w') !! Samples.claudeTab
      = None
    ∧ Coordinator.pendingContext (Coordinator.tables w')
      = Coordinator.pendingContext (Coordinator.tables Samples.reviewing)
    ∧ Coordinator.creating w' = Coordinator.creating Samples.reviewing
    ∧ Coordinator.created w' = Coordinator.created Samples.reviewing.
Proof.
  apply (result_forwards_critique Samples.reviewing Samples.claudeTab
           Samples.chatTab Samples.streamed).
  - exists Samples.readyEvents, (Samples.effectsOf Samples.readyEvents).
    vm_compute. reflexivity.
  - vm_compute. reflexivity.
Defined.

(** C6. A [CLAUDE_RESPONSE] from a sender whose tab id has no
    [pendingReview] entry has no effect at all: nothing is sent and the
    world, both tables included, is unchanged. *)
Theorem result_without_review_is_noop (w : Coordinator.World)
    (sender : option Z) (content : jsstring) :
  (∀ t, sender = Some t →
        Coordinator.pendingReview (Coordinator.tables w) !! t = None) →
  Coordinator.turn w
    (Coordinator.Deliver (Protocol.CLAUDE_RESPONSE content) sender)
    = Some (w, [])
  ∧ Coordinator.onMessage (Coordinator.tables w)
      (Protocol.CLAUDE_RESPONSE content) sender
    = (Coordinator.tables w, []).
Proof.
  intros Hnone.
  assert (H : Coordinator.onMessage (Coordinator.tables w)
                (Protocol.CLAUDE_RESPONSE content) sender
              = (Coordinator.tables w, [])).
  { simpl. destruct (Coordinator.truthyTab sender) as [t|] eqn:Ht; [|done].
    apply truthyTab_Some in Ht as [Ht _]. by rewrite (Hnone t Ht). }
  split; [|exact H].
  unfold Coordinator.turn. rewrite H. simpl. rewrite app_nil_r.
  by destruct w.
Qed.

Lemma result_without_review_is_noop_witness :
  Coordinator.turn Samples.capturing
    (Coordinator.Deliver (Protocol.CLAUDE_RESPONSE Samples.streamed)
       (Some Samples.claudeTab))
    = Some (Samples.capturing, [])
  ∧ Coordinator.onMessage (Coordinator.tables Samples.capturing)
      (Protocol.CLAUDE_RESPONSE Samples.streamed) (Some Samples.claudeTab)
    = (Coordinator.tables Samples.capturing, []).
Proof.
  apply (result_without_review_is_noop Samples.capturing
           (Some Samples.claudeTab) Samples.streamed).
  intros t [= <-]. vm_compute. reflexivity.
Defined.

(* ================================================================== *)
(** * JSON text: reading back what was written *)
(* ================================================================== *)

Section JsonFacts.

Import Json.

Lemma hexValue_hexDigit d : (d < 16)%N → hexValue (hexDigit d) = Some d.
Proof.
  intros Hd. unfold hexDigit, hexValue.
  destruct (N.ltb_spec d 10).
  - destruct (N.leb_spec 48 (48 + d)); [|lia].
    destruct (N.leb_spec (48 + d) 57); [|lia].
    simpl. f_equal. lia.
  - destruct (N.leb_spec 48 (87 + d)); [|lia].
    destruct (N.leb_spec (87 + d) 57); [lia|].
    destruct (N.leb_spec 97 (87 + d)); [|lia].
    destruct (N.leb_spec (87 + d) 102); [|lia].
    simpl. f_equal. lia.
Qed.

Lemma hex_digits_recompose c :
  (c < 65536)%N →
  (c / 4096 mod 16 * 4096 + c / 256 mod 16 * 256
   + c / 16 mod 16 * 16 + c mod 16 = c)%N.
Proof.
  intros Hc.
  assert (H0 : (c = 16 * (c / 16) + c mod 16)%N)
    by (apply N.div_mod; lia).
  assert (H1 : (c / 16 = 16 * (c / 256) + c / 16 mod 16)%N).
  { rewrite (N.div_mod (c / 16) 16) at 1 by lia.
    rewrite N.Div0.div_div. reflexivity. }
  assert (H2 : (c / 256 = 16 * (c / 4096) + c / 256 mod 16)%N).
  { rewrite (N.div_mod (c / 256) 16) at 1 by lia.
    rewrite N.Div0.div_div. reflexivity. }
  assert (H3 : (c / 4096 mod 16 = c / 4096)%N).
  { apply N.mod_small. apply N.Div0.div_lt_upper_bound; lia. }
  lia.
Qed.

Lemma hex4_unicodeEscape c :
  (c < 65536)%N →
  hex4 (hexDigit (c / 4096 mod 16)) (hexDigit (c / 256 mod 16))
       (hexDigit (c / 16 mod 16)) (hexDigit (c mod 16)) = Some c.
Proof.
  intros Hc. unfold hex4.
  rewrite !hexValue_hexDigit by (apply N.mod_lt; lia).
  f_equal. by apply hex_digits_recompose.
Qed.

Lemma parseChars_escape_u h1 h2 h3 h4 more :
  parseChars (BACKSLASH :: 117%N :: h1 :: h2 :: h3 :: h4 :: more) =
  match hex4 h1 h2 h3 h4 with
  | Some u => consUnit u (parseChars more)
  | None => None
  end.
Proof. reflexivity. Qed.

Lemma parseChars_unicodeEscape c more :
  (c < 65536)%N →
  parseChars (unicodeEscape c ++ more) = consUnit c (parseChars more).
Proof.
  intros Hc. unfold unicodeEscape. cbn [app].
  by rewrite parseChars_escape_u, hex4_unicodeEscape.
Qed.

Lemma parseChars_plain c more :
  (c =? 34)%N = false → (c =? 92)%N = false → (c <? 32)%N = false →
  parseChars (c :: more) = consUnit c (parseChars more).
Proof. intros H1 H2 H3. cbn [parseChars]. by rewrite H1, H2, H3. Qed.

(** A written code point reads back as itself. *)
Lemma parseChars_quoteUnit c more :
  parseChars (quoteUnit c ++ more) = consUnit c (parseChars more).
Proof.
  unfold quoteUnit.
  destruct (N.eqb_spec c 8) as [->|_]; [reflexivity|].
  destruct (N.eqb_spec c 9) as [->|_]; [reflexivity|].
  destruct (N.eqb_spec c 10) as [->|_]; [reflexivity|].
  destruct (N.eqb_spec c 12) as [->|_]; [reflexivity|].
  destruct (N.eqb_spec c 13) as [->|_]; [reflexivity|].
  destruct (c =? 34)%N eqn:E34; [apply N.eqb_eq in E34 as ->; reflexivity|].
  destruct (c =? 92)%N eqn:E92; [apply N.eqb_eq in E92 as ->; reflexivity|].
  destruct (c <? 32)%N eqn:E32; simpl orb.
  - apply parseChars_unicodeEscape. apply N.ltb_lt in E32. lia.
  - destruct (isLeadingSurrogate c || isTrailingSurrogate c) eqn:Es.
    + apply parseChars_unicodeEscape.
      unfold isLeadingSurrogate, isTrailingSurrogate in Es.
      apply orb_true_iff in Es as [Es|Es];
        apply andb_true_iff in Es as [_ Es]; apply N.leb_le in Es; lia.
    + cbn [app]. by apply parseChars_plain.
Qed.

Lemma surrogate_plain c :
  isLeadingSurrogate c || isTrailingSurrogate c = true →
  (c =? 34)%N = false ∧ (c =? 92)%N = false ∧ (c <? 32)%N = false.
Proof.
  unfold isLeadingSurrogate, isTrailingSurrogate. intros H.
  assert (55296 ≤ c)%N.
  { apply orb_true_iff in H as [H|H];
      apply andb_true_iff in H as [H _]; apply N.leb_le in H; lia. }
  repeat split; [apply N.eqb_neq|apply N.eqb_neq|apply N.ltb_ge]; lia.
Qed.

(** The body of a written string reads back as the string. *)
Lemma parseChars_quoteUnits_bounded n : ∀ s rest,
  (length s ≤ n)%nat →
  parseChars (quoteUnits s ++ QUOTE :: rest) = Some (s, rest).
Proof.
  induction n as [|n IH]; intros s rest Hlen.
  - destruct s; [reflexivity|simpl in Hlen; lia].
  - destruct s as [|c s]; [reflexivity|]. simpl in Hlen.
    cbn [quoteUnits].
    destruct (isLeadingSurrogate c) eqn:Elead.
    + destruct s as [|d s].
      * rewrite parseChars_unicodeEscape; [reflexivity|].
        unfold isLeadingSurrogate in Elead.
        apply andb_true_iff in Elead as [_ E]. apply N.leb_le in E. lia.
      * destruct (isTrailingSurrogate d) eqn:Etrail.
        -- destruct (surrogate_plain c) as (C1 & C2 & C3);
             [by rewrite Elead|].
           destruct (surrogate_plain d) as (D1 & D2 & D3);
             [by rewrite Etrail, orb_true_r|].
           cbn [app]. rewrite (parseChars_plain c) by done.
           rewrite (parseChars_plain d) by done.
           rewrite IH by (simpl in Hlen; lia). reflexivity.
        -- rewrite <- app_assoc, parseChars_unicodeEscape.
           ++ rewrite IH by lia. reflexivity.
           ++ unfold isLeadingSurrogate in Elead.
              apply andb_true_iff in Elead as [_ E]. apply N.leb_le in E.
              lia.
    + rewrite <- app_assoc, parseChars_quoteUnit, IH by lia. reflexivity.
Qed.

Lemma parseString_quoteJSONString s rest :
  parseString (quoteJSONString s ++ rest) = Some (s, rest).
Proof.
  unfold quoteJSONString. cbn [app parseString].
  change (QUOTE =? 34)%N with true. cbv iota.
  rewrite <- app_assoc. cbn [app].
  by apply (parseChars_quoteUnits_bounded (length s)).
Qed.

Lemma skipWs_blank ws x : blank ws → skipWs (ws ++ x) = skipWs x.
Proof.
  induction 1 as [|c ws Hc _ IH]; [reflexivity|].
  cbn [app skipWs]. by rewrite Hc.
Qed.

Lemma skipWs_stop c x : isJsonWs c = false → skipWs (c :: x) = c :: x.
Proof. intros H. cbn [skipWs]. by rewrite H. Qed.

Lemma skipWs_quoted s x :
  skipWs (quoteJSONString s ++ x) = quoteJSONString s ++ x.
Proof. reflexivity. Qed.

Lemma blank_indent ws : blank ws → blank (NL :: ws).
Proof. intros H. by constructor. Qed.

Lemma blank_gap : blank gap.
Proof. by repeat constructor. Qed.

Lemma join_quoted_head sep x items :
  ∃ tail, join sep (map quoteJSONString (x :: items)) = QUOTE :: tail.
Proof.
  destruct items as [|y items]; cbn [map join quoteJSONString app]; eauto.
Qed.

Lemma join_length_ge {A} (f : A → jsstring) sep items :
  (∀ x, 1 ≤ length (f x))%nat →
  (length items ≤ length (join sep (map f items)))%nat.
Proof.
  intros Hf. induction items as [|x [|y items] IH]; cbn [map join length].
  - lia.
  - apply Hf.
  - rewrite !length_app. cbn [map join length] in IH. specialize (Hf x). lia.
Qed.

(** The elements of a written array read back, whatever blank text
    separates them. *)
Lemma parseElements_written items : ∀ fuel ws wsEnd rest,
  blank ws → blank wsEnd → items ≠ [] → (length items ≤ fuel)%nat →
  parseElements fuel
    (ws ++ join (44%N :: ws) (map quoteJSONString items)
        ++ wsEnd ++ 93%N :: rest)
  = Some (items, rest).
Proof.
  induction items as [|x items IH]; intros fuel ws wsEnd rest Hws Hend Hne Hfuel;
    [done|].
  destruct fuel as [|fuel]; [simpl in Hfuel; lia|]. simpl in Hfuel.
  cbn [parseElements]. rewrite skipWs_blank by done.
  destruct items as [|y items].
  - cbn [map join]. rewrite skipWs_quoted.
    rewrite parseString_quoteJSONString, skipWs_blank by done.
    reflexivity.
  - change (join (44%N :: ws) (map quoteJSONString (x :: y :: items)))
      with (quoteJSONString x ++ (44%N :: ws)
              ++ join (44%N :: ws) (map quoteJSONString (y :: items))).
    rewrite <- !app_assoc. rewrite skipWs_quoted.
    rewrite parseString_quoteJSONString.
    cbn [app]. rewrite skipWs_stop by done.
    change (44 =? 44)%N with true. cbv iota.
    rewrite IH; [reflexivity|done|done|done|lia].
Qed.

Lemma serializeValue_head indent v tail :
  ∃ c more, serializeValue indent v ++ tail = c :: more ∧ isJsonWs c = false.
Proof.
  destruct v as [s|[|x items]]; cbn; eauto.
Qed.

(** A written value reads back. *)
Lemma parseValue_written indent v tail :
  blank indent →
  parseValue (serializeValue indent v ++ tail) = Some (v, tail).
Proof.
  intros Hindent. destruct v as [s|[|x items]].
  - cbn [serializeValue]. unfold parseValue.
    rewrite parseString_quoteJSONString. reflexivity.
  - reflexivity.
  - cbn [serializeValue serializeArray].
    change (lit "[") with [91%N]. change (lit "]") with [93%N].
    change (lit ",") with [44%N].
    set (ws := NL :: indent ++ gap).
    assert (Hws : blank ws).
    { apply blank_indent, Forall_app. split; [done|apply blank_gap]. }
    replace (([91%N] ++ [NL] ++ (indent ++ gap)
                ++ join ([44%N] ++ [NL] ++ indent ++ gap)
                     (map quoteJSONString (x :: items))
                ++ [NL] ++ indent ++ [93%N]) ++ tail)
      with (91%N :: ws ++ join (44%N :: ws) (map quoteJSONString (x :: items))
              ++ (NL :: indent) ++ 93%N :: tail)
      by (subst ws; cbn [app]; rewrite <- ?app_assoc; cbn [app];
        rewrite <- ?app_assoc; cbn [app]; reflexivity).
    assert (Hskip : ∃ more,
      skipWs (ws ++ join (44%N :: ws) (map quoteJSONString (x :: items))
                ++ (NL :: indent) ++ 93%N :: tail) = QUOTE :: more).
    { rewrite skipWs_blank by done.
      destruct (join_quoted_head (44%N :: ws) x items) as [more Hmore].
      rewrite Hmore. cbn [app]. rewrite skipWs_stop by done. eauto. }
    destruct Hskip as [more Hskip].
    cbn [parseValue]. change (91 =? 91)%N with true. cbv iota.
    rewrite Hskip. change (QUOTE =? 93)%N with false. cbv iota.
    rewrite parseElements_written; [reflexivity|done| |done|].
    + by apply blank_indent.
    + rewrite !length_app.
      pose proof (join_length_ge quoteJSONString (44%N :: ws) (x :: items)) as H.
      etrans; [apply H|lia].
      intros s. unfold quoteJSONString. simpl. lia.
Qed.

(** The members of a written object read back. *)
Lemma parseMembers_written members : ∀ fuel ws wsEnd rest,
  blank ws → blank wsEnd → members ≠ [] → (length members ≤ fuel)%nat →
  parseMembers fuel
    (ws ++ join (44%N :: ws) (map (serializeMember gap) members)
        ++ wsEnd ++ 125%N :: rest)
  = Some (members, rest).
Proof.
  induction members as [|[k v] members IH];
    intros fuel ws wsEnd rest Hws Hend Hne Hfuel; [done|].
  destruct fuel as [|fuel]; [simpl in Hfuel; lia|]. simpl in Hfuel.
  assert (Hone : ∀ tail,
    match parseString (skipWs (ws ++ serializeMember gap (k, v) ++ tail)) with
    | Some (key, rest0) =>
        match skipWs rest0 with
        | c :: rest1 =>
            if (c =? 58)%N then
              match parseValue (skipWs rest1) with
              | Some (v', rest2) => Some (key, v', rest2)
              | None => None
              end
            else None
        | [] => None
        end
    | None => None
    end = Some (k, v, tail)).
  { intros tail. rewrite skipWs_blank by done.
    unfold serializeMember. cbn [fst snd].
    change (lit ":") with [58%N]. change (lit " ") with [32%N].
    rewrite <- !app_assoc. rewrite skipWs_quoted.
    rewrite parseString_quoteJSONString. cbn [app].
    rewrite skipWs_stop by done. change (58 =? 58)%N with true. cbv iota.
    change (32%N :: serializeValue gap v ++ tail)
      with ([32%N] ++ serializeValue gap v ++ tail).
    rewrite skipWs_blank by (by repeat constructor).
    destruct (serializeValue_head gap v tail) as (c & more & Hhead & Hc).
    rewrite Hhead, skipWs_stop by done. rewrite <- Hhead.
    rewrite parseValue_written by apply blank_gap. reflexivity. }
  cbn [parseMembers].
  destruct members as [|kv members].
  - cbn [map join]. specialize (Hone (wsEnd ++ 125%N :: rest)).
    destruct (parseString _) as [[key rest0]|]; [|discriminate].
    destruct (skipWs rest0) as [|c rest1]; [discriminate|].
    destruct (c =? 58)%N; [|discriminate].
    destruct (parseValue _) as [[v' rest2]|]; [|discriminate].
    injection Hone as -> -> ->.
    rewrite skipWs_blank by done. reflexivity.
  - change (join (44%N :: ws) (map (serializeMember gap) ((k, v) :: kv :: members)))
      with (serializeMember gap (k, v) ++ (44%N :: ws)
              ++ join (44%N :: ws) (map (serializeMember gap) (kv :: members))).
    rewrite <- !app_assoc.
    specialize (Hone ((44%N :: ws)
      ++ join (44%N :: ws) (map (serializeMember gap) (kv :: members))
      ++ wsEnd ++ 125%N :: rest)).
    destruct (parseString _) as [[key rest0]|]; [|discriminate].
    destruct (skipWs rest0) as [|c rest1]; [discriminate|].
    destruct (c =? 58)%N; [|discriminate].
    destruct (parseValue _) as [[v' rest2]|]; [|discriminate].
    injection Hone as -> -> ->.
    cbn [app]. rewrite skipWs_stop by done.
    change (44 =? 44)%N with true. cbv iota.
    rewrite IH; [reflexivity|done|done|done|lia].
Qed.

Lemma serializeMember_length kv : (1 ≤ length (serializeMember gap kv))%nat.
Proof.
  unfold serializeMember, quoteJSONString. cbn [app length]. lia.
Qed.

(** A written object reads back as its members, in order. *)
Lemma parseObject_written members rest :
  parseObject (serializeObject members ++ rest) = Some (members, rest).
Proof.
  destruct members as [|kv members]; [reflexivity|].
  cbn [serializeObject].
  change (lit "{") with [123%N]. change (lit "}") with [125%N].
  change (lit ",") with [44%N].
  set (ws := NL :: gap).
  assert (Hws : blank ws) by (apply blank_indent, blank_gap).
  replace (([123%N] ++ [NL] ++ gap
              ++ join ([44%N] ++ [NL] ++ gap)
                   (map (serializeMember gap) (kv :: members))
              ++ [NL] ++ [125%N]) ++ rest)
    with (123%N :: ws ++ join (44%N :: ws)
                           (map (serializeMember gap) (kv :: members))
            ++ [NL] ++ 125%N :: rest)
    by (subst ws; cbn [app]; rewrite <- ?app_assoc; cbn [app];
        rewrite <- ?app_assoc; cbn [app]; reflexivity).
  assert (Hskip : ∃ more,
    skipWs (ws ++ join (44%N :: ws) (map (serializeMember gap) (kv :: members))
              ++ [NL] ++ 125%N :: rest) = QUOTE :: more).
  { rewrite skipWs_blank by done.
    assert (Hhead : ∃ more,
      join (44%N :: ws) (map (serializeMember gap) (kv :: members))
      = QUOTE :: more).
    { destruct members; cbn [map join serializeMember quoteJSONString app];
        eauto. }
    destruct Hhead as [more Hmore]. rewrite Hmore. cbn [app].
    rewrite skipWs_stop by done. eauto. }
  destruct Hskip as [more Hskip].
  unfold parseObject. rewrite skipWs_stop by done.
  change (123 =? 123)%N with true. cbv iota.
  rewrite Hskip. change (QUOTE =? 125)%N with false. cbv iota.
  apply parseMembers_written; [done|by repeat constructor|done|].
  rewrite !length_app.
  pose proof (join_length_ge (serializeMember gap) (44%N :: ws) (kv :: members)
                serializeMember_length).
  lia.
Qed.

End JsonFacts.

(* ================================================================== *)
(** * Properties of the context block *)
(* ================================================================== *)

Section FormatFacts.

Import Format.

Lemma split_nonempty sep s : split sep s ≠ [].
Proof.
  destruct s as [|c s]; cbn [split]; [done|].
  destruct (c =? sep)%N; [done|]. by destruct (split sep s).
Qed.

(** Splitting at a separator splits on both sides of it. *)
Lemma split_app_sep sep x y :
  split sep (x ++ sep :: y) = split sep x ++ split sep y.
Proof.
  induction x as [|c x IH]; cbn [app split].
  - by rewrite N.eqb_refl.
  - destruct (c =? sep)%N; [by rewrite IH|].
    rewrite IH. pose proof (split_nonempty sep x).
    by destruct (split sep x).
Qed.

Lemma split_singleLine y : singleLine y = true → split NL y = [y].
Proof.
  induction y as [|c y IH]; cbn [singleLine forallb split]; [done|].
  intros H. apply andb_true_iff in H as [Hc Hy].
  apply negb_true_iff in Hc. rewrite Hc, (IH Hy). reflexivity.
Qed.

(** The last line of a text that ends with a line feed and a single
    line. *)
Lemma lastLine_app x y :
  singleLine y = true → lastLine (x ++ NL :: y) = y.
Proof.
  intros Hy. unfold lastLine.
  rewrite split_app_sep, (split_singleLine y Hy). apply last_last.
Qed.

Lemma formatContextBlock_shape summary :
  formatContextBlock summary =
  (HEADER ++ [NL; NL] ++ contextJson summary ++ [NL])
    ++ NL :: question summary.
Proof.
  unfold formatContextBlock, blockLines. cbn [join].
  rewrite <- !app_assoc. reflexivity.
Qed.

Lemma fromFirstBrace_skip pre x :
  forallb (λ c, negb (c =? 123)%N) pre = true →
  fromFirstBrace (pre ++ x) = fromFirstBrace x.
Proof.
  induction pre as [|c pre IH]; cbn [forallb app fromFirstBrace]; [done|].
  intros H. apply andb_true_iff in H as [Hc Hpre].
  apply negb_true_iff in Hc. rewrite Hc. by apply IH.
Qed.

(** Reading the five properties off the members of the object literal. *)
Lemma read_members f :
  getString "topic" (members f) = Some (f_topic f)
  ∧ getString "user_goal" (members f) = Some (f_user_goal f)
  ∧ getStrings "important_facts" (members f) = Some (f_important_facts f)
  ∧ getStrings "decisions_made" (members f) = Some (f_decisions_made f)
  ∧ getString "current_task" (members f) = Some (f_current_task f).
Proof. repeat split; reflexivity. Qed.

Lemma readFields_formatContextBlock summary :
  readFields (formatContextBlock summary) = Some (contextFields summary).
Proof.
  unfold readFields. rewrite formatContextBlock_shape.
  rewrite <- !app_assoc.
  rewrite fromFirstBrace_skip by reflexivity.
  rewrite (fromFirstBrace_skip [NL; NL]) by reflexivity.
  unfold contextJson.
  assert (Hbrace : ∀ x,
    fromFirstBrace (Json.serializeObject (members (contextFields summary)) ++ x)
    = Json.serializeObject (members (contextFields summary)) ++ x)
    by reflexivity.
  rewrite Hbrace, parseObject_written.
  destruct (read_members (contextFields summary)) as (-> & -> & -> & -> & ->).
  by destruct (contextFields summary).
Qed.

End FormatFacts.

Lemma orEmptyString_default x :
  Format.orEmptyString x = match x with Some s => s | None => [] end.
Proof. by destruct x as [[|c s]|]. Qed.

Lemma orEmptyArray_default x :
  Format.orEmptyArray x = match x with Some items => items | None => [] end.
Proof. by destruct x. Qed.

(** C9. Formatting a summary and reading the JSON object embedded in the
    block gives back the five fields [topic], [user_goal],
    [important_facts], [decisions_made], [current_task]: each field that is
    present comes back as it was given, text for text and item for item,
    and each missing field comes back as the empty string or the empty
    array.  In particular a summary with all five fields present reads back
    as exactly those five values, and the summary with no field at all
    reads back as five empty fields. *)
Theorem context_block_round_trip (summary : Format.Summary) :
  Format.readFields (Format.formatContextBlock summary)
    = Some {| Format.f_topic :=
                match Format.topic summary with
                | Some text => text
                | None => []
                end;
              Format.f_user_goal :=
                match Format.user_goal summary with
                | Some text => text
                | None => []
                end;
              Format.f_important_facts :=
                match Format.important_facts summary with
                | Some items => items
                | None => []
                end;
              Format.f_decisions_made :=
                match Format.decisions_made summary with
                | Some items => items
                | None => []
                end;
              Format.f_current_task :=
                match Format.current_task summary with
                | Some text => text
                | None => []
                end |}
  ∧ (∀ t g fs ds c,
       Format.readFields
         (Format.formatContextBlock
            {| Format.topic := Some t; Format.user_goal := Some g;
               Format.important_facts := Some fs;
               Format.decisions_made := Some ds;
               Format.current_task := Some c |})
       = Some {| Format.f_topic := t; Format.f_user_goal := g;
                 Format.f_important_facts := fs;
                 Format.f_decisions_made := ds;
                 Format.f_current_task := c |})
  ∧ Format.readFields
      (Format.formatContextBlock
         {| Format.topic := None; Format.user_goal := None;
            Format.important_facts := None; Format.decisions_made := None;
            Format.current_task := None |})
    = Some {| Format.f_topic := []; Format.f_user_goal := [];
              Format.f_important_facts := []; Format.f_decisions_made := [];
              Format.f_current_task := [] |}.
Proof.
  assert (H : ∀ x : Format.Summary,
    Format.readFields (Format.formatContextBlock x)
    = Some {| Format.f_topic :=
                match Format.topic x with Some text => text | None => [] end;
              Format.f_user_goal :=
                match Format.user_goal x with
                | Some text => text
                | None => []
                end;
              Format.f_important_facts :=
                match Format.important_facts x with
                | Some items => items
                | None => []
                end;
              Format.f_decisions_made :=
                match Format.decisions_made x with
                | Some items => items
                | None => []
                end;
              Format.f_current_task :=
                match Format.current_task x with
                | Some text => text
                | None => []
                end |}).
  { intros x. rewrite readFields_formatContextBlock.
    unfold Format.contextFields.
    by rewrite !orEmptyString_default, !orEmptyArray_default. }
  split; [apply H|]. split.
  - intros t g fs ds c.
    exact (H {| Format.topic := Some t; Format.user_goal := Some g;
                Format.important_facts := Some fs;
                Format.decisions_made := Some ds;
                Format.current_task := Some c |}).
  - exact (H {| Format.topic := None; Format.user_goal := None;
                Format.important_facts := None;
                Format.decisions_made := None;
                Format.current_task := None |}).
Qed.

Lemma formatContextBlock_closing summary :
  Format.formatContextBlock summary
  = (lit "I am continuing a conversation from another AI. Here is the structured context:"
       ++ [NL; NL] ++ Format.contextJson summary)
      ++ [NL; NL]
      ++ match Format.current_task summary with
         | Some (c :: task) =>
             lit "Please help me continue with: " ++ c :: task
         | Some [] | None =>
             lit "What are your thoughts on the above context?"
         end.
Proof.
  rewrite formatContextBlock_shape. unfold Format.question.
  rewrite <- !app_assoc.
  by destruct (Format.current_task summary) as [[|c task]|].
Qed.

Lemma lastLine_closing body closing :
  singleLine closing = true →
  Format.lastLine (body ++ [NL; NL] ++ closing) = closing.
Proof.
  intros H.
  change (body ++ [NL; NL] ++ closing) with (body ++ [NL] ++ NL :: closing).
  rewrite app_assoc. by apply lastLine_app.
Qed.

(** C10 as the code has it.  The block ends with a blank line and a closing
    text.  When [current_task] is missing or empty the closing text is
    ["What are your thoughts on the above context?"], and it is the last
    line of the block.  When [current_task] is truthy the closing text is
    ["Please help me continue with: "] followed by the task; it is the last
    line of the block when the task holds no line feed.  For summaries
    whose task holds no line feed, the last line of the block starts with
    ["Please help me continue with: "] exactly when [current_task] is
    truthy. *)
Theorem closing_text_by_current_task (summary : Format.Summary) :
  let block := Format.formatContextBlock summary in
  let body :=
    lit "I am continuing a conversation from another AI. Here is the structured context:"
      ++ [NL; NL] ++ Format.contextJson summary in
  match Format.current_task summary with
  | Some (c :: task) =>
      block = body ++ [NL; NL]
                ++ lit "Please help me continue with: " ++ c :: task
      ∧ (singleLine (c :: task) = true →
         Format.lastLine block
         = lit "Please help me continue with: " ++ c :: task)
  | Some [] | None =>
      block = body ++ [NL; NL]
                ++ lit "What are your thoughts on the above context?"
      ∧ Format.lastLine block
        = lit "What are your thoughts on the above context?"
  end
  ∧ ((∀ task, Format.current_task summary = Some task →
              singleLine task = true) →
     ((∃ rest, Format.lastLine block
               = lit "Please help me continue with: " ++ rest)
      ↔ ∃ c task, Format.current_task summary = Some (c :: task))).
Proof.
  intros block body. subst block body.
  rewrite formatContextBlock_closing.
  destruct (Format.current_task summary) as [[|c task]|] eqn:Htask.
  - rewrite lastLine_closing by reflexivity.
    split; [done|]. intros _. split.
    + intros [rest H]. discriminate H.
    + intros (c & task & H). discriminate H.
  - split.
    + split; [done|]. intros Hline. apply lastLine_closing.
      unfold singleLine. rewrite forallb_app. by apply andb_true_iff.
    + intros Hline. specialize (Hline _ eq_refl).
      rewrite lastLine_closing
        by (unfold singleLine; rewrite forallb_app; by apply andb_true_iff).
      split; [eauto|]. intros _. eauto.
  - rewrite lastLine_closing by reflexivity.
    split; [done|]. intros _. split.
    + intros [rest H]. discriminate H.
    + intros (c & task & H). discriminate H.
Qed.

(** C10 as the claim words it fails on a task of several lines: here
    [current_task] is truthy, yet the last line of the block is the generic
    question and not a continue-with line. *)
Lemma closing_line_counterexample :
  (∃ c task, Format.current_task Samples.sneakySummary = Some (c :: task))
  ∧ Format.lastLine (Format.formatContextBlock Samples.sneakySummary)
    = lit "What are your thoughts on the above context?"
  ∧ ¬ ∃ rest,
        Format.lastLine (Format.formatContextBlock Samples.sneakySummary)
        = lit "Please help me continue with: " ++ rest.
Proof.
  split; [by eexists _, _|].
  assert (H : Format.lastLine (Format.formatContextBlock Samples.sneakySummary)
              = lit "What are your thoughts on the above context?")
    by (vm_compute; reflexivity).
  split; [exact H|]. rewrite H. intros [rest Hrest]. discriminate Hrest.
Qed.

(** The sample summary closes on its task ... *)
Example closing_line_of_sample :
  Format.lastLine (Format.formatContextBlock Samples.summary)
  = lit "Please help me continue with: do Y".
Proof. vm_compute. reflexivity. Qed.

(** ... and a task of two lines makes a closing piece of two lines, of
    which the last line of the text is the second. *)
Example closing_piece_of_two_lines :
  List.last (Format.blockLines Samples.twoLineSummary) []
    = lit "Please help me continue with: first" ++ [NL] ++ lit "then second"
  ∧ Format.lastLine (Format.formatContextBlock Samples.twoLineSummary)
    = lit "then second".
Proof. split; vm_compute; reflexivity. Qed.

(** A string with a line feed, a quote, a control character, a surrogate
    pair and a lone surrogate, as [JSON.stringify] writes it. *)
Example quoteJSONString_sample :
  Json.quoteJSONString
    [97; 10; 34; 1; 55357; 56832; 55357; 98]%N
  = ([34] ++ lit "a" ++ [92; 110] ++ [92; 34] ++ [92] ++ lit "u0001"
       ++ [55357; 56832] ++ [92] ++ lit "ud83d" ++ lit "b" ++ [34])%N.
Proof. vm_compute. reflexivity. Qed.

(* ================================================================== *)
(** * The detector on the clock *)
(* ================================================================== *)

Section DetectorClock.

Import Detector Stability.

Variable cfg : Config.
Variable snapshot : jsstring.

(** A firing that reschedules adds one poll interval to [elapsed]. *)
Lemma tick_reschedule_elapsed p t p' :
  tick cfg snapshot p t = Reschedule p' →
  elapsed p' = elapsed p + POLL_MS cfg.
Proof.
  unfold tick.
  destruct (TIMEOUT_MS cfg <=? elapsed p); [discriminate|].
  destruct (phase p =? 1).
  - destruct (_ <? _); intros [= <-]; reflexivity.
  - destruct (_ =? _).
    + destruct (_ <=? _); [discriminate|]. intros [= <-]. reflexivity.
    + intros [= <-]. reflexivity.
Qed.

(** A firing that settles by rejecting is a timeout; one that resolves
    happens before the deadline. *)
Lemma tick_settle_clock p t o :
  tick cfg snapshot p t = Settle o →
  match o with
  | Rejected message =>
      message = "Timed out waiting for Claude's response."%string
      ∧ TIMEOUT_MS cfg ≤ elapsed p
  | Resolved response =>
      elapsed p < TIMEOUT_MS cfg
      ∧ response = extractResponse snapshot t
      ∧ phase p ≠ 1 ∧ len t = lastLength p
      ∧ STABLE_NEEDED cfg ≤ stableCount p + 1
  end.
Proof.
  unfold tick.
  destruct (Z.leb_spec (TIMEOUT_MS cfg) (elapsed p)).
  - intros [= <-]. done.
  - destruct (Z.eqb_spec (phase p) 1).
    + destruct (_ <? _); discriminate.
    + destruct (Z.eqb_spec (len t) (lastLength p)); [|discriminate].
      destruct (Z.leb_spec (STABLE_NEEDED cfg) (stableCount p + 1));
        [|discriminate].
      intros [= <-]. done.
Qed.

Lemma poll_settles n : ∀ texts i p,
  TIMEOUT_MS cfg ≤ elapsed p + POLL_MS cfg * Z.of_nat n →
  (n < length texts)%nat →
  ∃ k o, poll cfg snapshot i p texts = Done k o ∧ (k ≤ i + n)%nat.
Proof.
  induction n as [|n IH]; intros texts i p Hdeadline Hlen;
    (destruct texts as [|t rest]; [simpl in Hlen; lia|]); simpl.
  - unfold tick. destruct (Z.leb_spec (TIMEOUT_MS cfg) (elapsed p)); [|lia].
    eexists _, _. split; [reflexivity|lia].
  - destruct (tick cfg snapshot p t) as [o|p'] eqn:Htick.
    + eexists _, _. split; [reflexivity|lia].
    + apply tick_reschedule_elapsed in Htick.
      destruct (IH rest (S i) p') as (k & o & Hpoll & Hk);
        [lia|simpl in Hlen; lia|].
      exists k, o. split; [done|lia].
Qed.

Lemma poll_clock texts : ∀ i p k o,
  elapsed p = POLL_MS cfg * Z.of_nat i →
  poll cfg snapshot i p texts = Done k o →
  match o with
  | Rejected message =>
      message = "Timed out waiting for Claude's response."%string
      ∧ TIMEOUT_MS cfg ≤ POLL_MS cfg * Z.of_nat k
  | Resolved _ => POLL_MS cfg * Z.of_nat k < TIMEOUT_MS cfg
  end.
Proof.
  induction texts as [|t rest IH]; intros i p k o Hel; simpl; [discriminate|].
  destruct (tick cfg snapshot p t) as [o'|p'] eqn:Htick.
  - intros [= <- <-]. apply tick_settle_clock in Htick.
    destruct o' as [r|m]; rewrite <- Hel; tauto.
  - apply tick_reschedule_elapsed in Htick. apply IH. lia.
Qed.

Lemma window_step seen p t p' :
  window seen p →
  tick cfg snapshot p t = Reschedule p' →
  window (seen ++ [t]) p'.
Proof.
  intros Hw. unfold tick.
  destruct (TIMEOUT_MS cfg <=? elapsed p); [discriminate|].
  assert (Hlast : (seen ++ [t]) !! (length (seen ++ [t]) - 1 - 0)%nat
                  = Some t).
  { rewrite length_app. simpl.
    replace (length seen + 1 - 1 - 0)%nat with (length seen + 0)%nat by lia.
    by rewrite lookup_app_r, Nat.add_0_r, Nat.sub_diag by lia. }
  destruct (Z.eqb_spec (phase p) 1) as [Hph|Hph].
  - destruct Hw as [[_ Hc]|[Hne _]]; [|done].
    destruct (_ <? _); intros [= <-].
    + right. simpl. split; [done|]. split; [lia|].
      intros j Hj. assert (j = 0%nat) as -> by lia.
      split; [rewrite length_app; simpl; lia|eauto].
    + left. simpl. done.
  - destruct Hw as [[Heq _]|(_ & Hc & Hwin)]; [done|].
    destruct (Z.eqb_spec (len t) (lastLength p)) as [Hlen|Hlen].
    + destruct (_ <=? _); [discriminate|]. intros [= <-].
      right. simpl. split; [done|]. split; [lia|].
      intros j Hj. destruct j as [|j].
      * split; [rewrite length_app; simpl; lia|eauto].
      * destruct (Hwin j) as (Hjlen & u & Hu & Hulen); [lia|].
        split; [rewrite length_app; simpl; lia|].
        exists u. split; [|done].
        rewrite length_app. simpl.
        replace (length seen + 1 - 1 - S j)%nat
          with (length seen - 1 - j)%nat by lia.
        rewrite lookup_app_l by lia. done.
    + intros [= <-]. right. simpl. split; [done|]. split; [lia|].
      intros j Hj. assert (j = 0%nat) as -> by lia.
      split; [rewrite length_app; simpl; lia|eauto].
Qed.

Lemma poll_window texts : ∀ seen p k response,
  window seen p →
  poll cfg snapshot (length seen) p texts = Done k (Resolved response) →
  ∃ final,
    (seen ++ texts) !! k = Some final
    ∧ response = extractResponse snapshot final
    ∧ ∀ j : nat, Z.of_nat j ≤ STABLE_NEEDED cfg →
        (j ≤ k)%nat
        ∧ ∃ t, (seen ++ texts) !! (k - j)%nat = Some t ∧ len t = len final.
Proof.
  induction texts as [|t rest IH]; intros seen p k response Hw; simpl;
    [discriminate|].
  destruct (tick cfg snapshot p t) as [o|p'] eqn:Htick.
  - intros [= <- ->]. apply tick_settle_clock in Htick.
    destruct Htick as (_ & -> & Hph & Hlen & Hneed).
    destruct Hw as [[Heq _]|(_ & Hc & Hwin)]; [done|].
    exists t. split; [by rewrite lookup_app_r, Nat.sub_diag by lia|].
    split; [done|]. intros j Hj. destruct j as [|j].
    + split; [lia|]. exists t.
      by rewrite Nat.sub_0_r, lookup_app_r, Nat.sub_diag by lia.
    + destruct (Hwin j) as (Hjlen & u & Hu & Hulen); [lia|].
      split; [lia|]. exists u. split; [|lia].
      replace (length seen - S j)%nat with (length seen - 1 - j)%nat by lia.
      by rewrite lookup_app_l by lia.
  - intros Hpoll.
    replace (S (length seen)) with (length (seen ++ [t])) in Hpoll
      by (rewrite length_app; simpl; lia).
    apply IH in Hpoll; [|by eapply window_step].
    by rewrite <- app_assoc in Hpoll.
Qed.

End DetectorClock.

(** With a poll interval that reaches the timeout in [n] steps, the promise
    is settled by firing [n]: the detector never waits for more than [n + 1]
    firings (181 with the constants of the source, 90 s of polling). *)
Theorem detector_settles_by_deadline (cfg : Detector.Config)
    (scopeEl : Detector.Scope) (snapshot : jsstring) (n : nat) :
  Detector.TIMEOUT_MS cfg ≤ Detector.POLL_MS cfg * Z.of_nat n →
  (n < length (Detector.textAtTick scopeEl))%nat →
  ∃ k o,
    Detector.waitFor cfg scopeEl snapshot = Detector.Done k o ∧ (k ≤ n)%nat.
Proof.
  intros Hdeadline Hlen. unfold Detector.waitFor.
  destruct (poll_settles cfg snapshot n (Detector.textAtTick scopeEl) 0
              (Detector.start scopeEl)) as (k & o & Hpoll & Hk);
    [simpl; lia|done|].
  exists k, o. split; [done|lia].
Qed.

Lemma detector_settles_by_deadline_witness :
  ∃ k o,
    Detector.waitFor Detector.defaults Samples.idleScope Samples.baseline
      = Detector.Done k o
    ∧ (k ≤ 180)%nat.
Proof.
  apply (detector_settles_by_deadline Detector.defaults Samples.idleScope
           Samples.baseline 180).
  - vm_compute. discriminate.
  - vm_compute. lia.
Defined.

(** The promise is rejected only by the timeout check, at a firing whose
    elapsed time has reached [TIMEOUT_MS], and with the timeout message; it
    is resolved only at a firing before that. *)
Theorem detector_settles_on_the_clock (cfg : Detector.Config)
    (scopeEl : Detector.Scope) (snapshot : jsstring) (k : nat)
    (o : Detector.Settled) :
  Detector.waitFor cfg scopeEl snapshot = Detector.Done k o →
  match o with
  | Detector.Rejected message =>
      message = "Timed out waiting for Claude's response."%string
      ∧ Detector.TIMEOUT_MS cfg ≤ Detector.POLL_MS cfg * Z.of_nat k
  | Detector.Resolved _ =>
      Detector.POLL_MS cfg * Z.of_nat k < Detector.TIMEOUT_MS cfg
  end.
Proof.
  unfold Detector.waitFor. apply poll_clock. simpl. lia.
Qed.

Lemma detector_settles_on_the_clock_witness :
  Detector.POLL_MS Detector.defaults * Z.of_nat 6
    < Detector.TIMEOUT_MS Detector.defaults.
Proof.
  apply (detector_settles_on_the_clock Detector.defaults
           Samples.streamingScope Samples.baseline 6
           (Detector.Resolved
              (lit "The plan is sound but step two needs a test first"))).
  vm_compute. reflexivity.
Defined.

(** A resolution at firing [k] returns [extractResponse] of the text read
    at that firing, and that text has the length of each of the
    [STABLE_NEEDED] texts read before it: with the constants of the source,
    five reads in a row of one length, so never before firing 4. *)
Theorem resolution_follows_stable_reads (cfg : Detector.Config)
    (scopeEl : Detector.Scope) (snapshot : jsstring) (k : nat)
    (response : jsstring) :
  Detector.waitFor cfg scopeEl snapshot
    = Detector.Done k (Detector.Resolved response) →
  ∃ final,
    Detector.textAtTick scopeEl !! k = Some final
    ∧ response = Detector.extractResponse snapshot final
    ∧ ∀ j : nat, Z.of_nat j ≤ Detector.STABLE_NEEDED cfg →
        (j ≤ k)%nat
        ∧ ∃ t, Detector.textAtTick scopeEl !! (k - j)%nat = Some t
               ∧ len t = len final.
Proof.
  unfold Detector.waitFor. intros Hpoll.
  apply (poll_window cfg snapshot (Detector.textAtTick scopeEl) []
           (Detector.start scopeEl) k response); [|exact Hpoll].
  left. done.
Qed.

Lemma resolution_follows_stable_reads_witness :
  ∃ final,
    Detector.textAtTick Samples.streamingScope !! 6%nat = Some final
    ∧ lit "The plan is sound but step two needs a test first"
      = Detector.extractResponse Samples.baseline final
    ∧ ∀ j : nat, Z.of_nat j ≤ Detector.STABLE_NEEDED Detector.defaults →
        (j ≤ 6)%nat
        ∧ ∃ t, Detector.textAtTick Samples.streamingScope !! (6 - j)%nat
                 = Some t
               ∧ len t = len final.
Proof.
  apply (resolution_follows_stable_reads Detector.defaults
           Samples.streamingScope Samples.baseline 6
           (lit "The plan is sound but step two needs a test first")).
  vm_compute. reflexivity.
Defined.

(* ================================================================== *)
(** * Trimming, and the lines of an extracted response *)
(* ================================================================== *)

Section TextFacts.

Lemma trimStart_head s :
  trimStart s = [] ∨ ∃ c r, trimStart s = c :: r ∧ isWhiteSpace c = false.
Proof.
  induction s as [|c s IH]; cbn [trimStart]; [by left|].
  destruct (isWhiteSpace c) eqn:Hc; [exact IH|]. right. eauto.
Qed.

Lemma trimStart_stop c r :
  isWhiteSpace c = false → trimStart (c :: r) = c :: r.
Proof. intros H. cbn [trimStart]. by rewrite H. Qed.

Lemma trimStart_idem s : trimStart (trimStart s) = trimStart s.
Proof.
  destruct (trimStart_head s) as [->|(c & r & -> & Hc)]; [done|].
  by apply trimStart_stop.
Qed.

Lemma trimStart_app_stop a c b :
  isWhiteSpace c = false → trimStart (a ++ c :: b) = trimStart a ++ c :: b.
Proof.
  intros Hc. induction a as [|d a IH]; cbn [app trimStart].
  - by rewrite Hc.
  - by destruct (isWhiteSpace d).
Qed.

Lemma trimEnd_cons c y :
  isWhiteSpace c = false → trimEnd (c :: y) = c :: trimEnd y.
Proof.
  intros Hc. unfold trimEnd. cbn [rev].
  rewrite trimStart_app_stop by done. by rewrite rev_app_distr.
Qed.

Lemma trimEnd_idem z : trimEnd (trimEnd z) = trimEnd z.
Proof. unfold trimEnd. by rewrite rev_involutive, trimStart_idem. Qed.

(** A trimmed text is empty or starts with a unit that is not white
    space. *)
Lemma trim_head x :
  trim x = [] ∨ ∃ c r, trim x = c :: r ∧ isWhiteSpace c = false.
Proof.
  unfold trim. destruct (trimStart_head x) as [->|(c & r & -> & Hc)].
  - by left.
  - right. rewrite trimEnd_cons by done. eauto.
Qed.

(** ... and read backwards it starts with such a unit too. *)
Lemma trim_rev_fixed x : trimStart (rev (trim x)) = rev (trim x).
Proof.
  unfold trim, trimEnd. by rewrite rev_involutive, trimStart_idem.
Qed.

Lemma trim_fixed s :
  trimStart s = s → trimStart (rev s) = rev s → trim s = s.
Proof.
  intros H1 H2. unfold trim, trimEnd. by rewrite H1, H2, rev_involutive.
Qed.

Lemma trim_start_fixed x : trimStart (trim x) = trim x.
Proof.
  destruct (trim_head x) as [->|(c & r & -> & Hc)]; [done|].
  by apply trimStart_stop.
Qed.

(** Trimming twice is trimming once. *)
Lemma trim_idem x : trim (trim x) = trim x.
Proof. apply trim_fixed; [apply trim_start_fixed|apply trim_rev_fixed]. Qed.

Lemma fixed_head s :
  trimStart s = s → s ≠ [] → ∃ c r, s = c :: r ∧ isWhiteSpace c = false.
Proof.
  intros Hfix Hne. destruct (trimStart_head s) as [H|(c & r & H & Hc)];
    rewrite Hfix in H; [done|eauto].
Qed.

(** Non-empty trimmed lines joined by line feeds make a trimmed text. *)
Lemma join_fixed lines :
  lines ≠ [] →
  Forall (λ l, l ≠ [] ∧ trimStart l = l ∧ trimStart (rev l) = rev l) lines →
  join [NL] lines ≠ []
  ∧ trimStart (join [NL] lines) = join [NL] lines
  ∧ trimStart (rev (join [NL] lines)) = rev (join [NL] lines).
Proof.
  intros Hne Hall. induction Hall as [|l rest (Hl & Hs & He) Hrest IH]; [done|].
  destruct rest as [|l2 rest]; [done|].
  change (join [NL] (l :: l2 :: rest))
    with (l ++ [NL] ++ join [NL] (l2 :: rest)).
  destruct IH as (Jne & Js & Je); [done|].
  destruct (fixed_head l Hs Hl) as (c & r & -> & Hc).
  split; [done|]. split; [by apply trimStart_stop|].
  rewrite !rev_app_distr.
  destruct (fixed_head (rev (join [NL] (l2 :: rest))) Je) as (d & r' & Hd & Hdc).
  { intros H. apply (f_equal (@rev N)) in H. rewrite rev_involutive in H.
    done. }
  rewrite Hd. cbn [app]. by apply trimStart_stop.
Qed.

Lemma split_pieces_singleLine s :
  Forall (λ p, singleLine p = true) (split NL s).
Proof.
  induction s as [|c s IH]; cbn [split]; [by repeat constructor|].
  destruct (c =? NL)%N eqn:Hc; [by constructor|].
  destruct (split NL s) as [|piece pieces]; [by repeat constructor; cbn; rewrite Hc|].
  inversion IH as [|? ? Hp Hps]; subst. constructor; [|done].
  cbn [singleLine forallb]. by rewrite Hc.
Qed.

Lemma singleLine_trimStart s :
  singleLine s = true → singleLine (trimStart s) = true.
Proof.
  induction s as [|c s IH]; cbn [trimStart]; [done|].
  destruct (isWhiteSpace c); [|done].
  cbn [singleLine forallb]. intros H. apply andb_true_iff in H as [_ H].
  by apply IH.
Qed.

Lemma singleLine_rev s : singleLine (rev s) = singleLine s.
Proof.
  unfold singleLine. induction s as [|c s IH]; [done|].
  cbn [rev forallb]. rewrite forallb_app, IH. cbn [forallb].
  by rewrite andb_true_r, andb_comm.
Qed.

Lemma singleLine_trim s : singleLine s = true → singleLine (trim s) = true.
Proof.
  intros H. unfold trim, trimEnd. rewrite singleLine_rev.
  apply singleLine_trimStart. rewrite singleLine_rev.
  by apply singleLine_trimStart.
Qed.

(** Lines without line feeds, joined and split again. *)
Lemma split_join lines :
  lines ≠ [] → Forall (λ l, singleLine l = true) lines →
  split NL (join [NL] lines) = lines.
Proof.
  intros Hne Hall. induction Hall as [|l rest Hl Hrest IH]; [done|].
  destruct rest as [|l2 rest]; [by apply split_singleLine|].
  change (join [NL] (l :: l2 :: rest))
    with (l ++ NL :: join [NL] (l2 :: rest)).
  rewrite split_app_sep, IH, split_singleLine by done. reflexivity.
Qed.

(** What holds of every trimmed piece longer than 10 holds of the lines
    kept by the filter. *)
Lemma Forall_kept (Q : jsstring → Prop) pieces :
  (∀ p, p ∈ pieces → 10 < len (trim p) → Q (trim p)) →
  Forall Q (filter (λ l, 10 < len l) (map trim pieces)).
Proof.
  induction pieces as [|p pieces IH]; intros HQ; cbn [map];
    [constructor|].
  rewrite filter_cons. destruct (decide (10 < len (trim p))).
  - constructor; [apply HQ; [left|done]|].
    apply IH. intros q Hq. apply HQ. by right.
  - apply IH. intros q Hq. apply HQ. by right.
Qed.

Lemma sameString_eq a : ∀ b, sameString a b = true ↔ a = b.
Proof.
  induction a as [|c a IH]; intros [|d b]; cbn [sameString]; try done.
  rewrite andb_true_iff, N.eqb_eq, IH. split; [intros [-> ->]|intros [= -> ->]]; done.
Qed.

End TextFacts.

(** The extracted response is the kept lines joined by line feeds: the
    outer [trim] changes nothing.  It is empty exactly when no line of the
    new text is longer than 10 once trimmed; otherwise its lines are the
    kept lines, each longer than 10 and without surrounding white space. *)
Theorem extractResponse_lines (before after : jsstring) :
  let kept :=
    filter (λ l, 10 < len l)
      (map trim (split NL (trim (slice after (len before))))) in
  Detector.extractResponse before after = join [NL] kept
  ∧ (Detector.extractResponse before after = [] ↔ kept = [])
  ∧ (kept ≠ [] → split NL (Detector.extractResponse before after) = kept)
  ∧ Forall (λ l, 10 < len l ∧ trim l = l ∧ singleLine l = true) kept.
Proof.
  intros kept.
  assert (Hkept : Forall (λ l, 10 < len l ∧ trim l = l ∧ singleLine l = true)
                    kept).
  { apply Forall_kept. intros p Hp Hlen. split; [done|].
    split; [apply trim_idem|]. apply singleLine_trim.
    pose proof (split_pieces_singleLine (trim (slice after (len before)))) as H.
    rewrite Forall_forall in H. by apply H. }
  assert (Hjoin : kept ≠ [] →
    join [NL] kept ≠ [] ∧ trim (join [NL] kept) = join [NL] kept).
  { intros Hne. destruct (join_fixed kept Hne) as (Jne & Js & Je).
    - eapply Forall_impl; [exact Hkept|]. intros l (Hlen & Htrim & _).
      split; [intros ->; vm_compute in Hlen; discriminate Hlen|].
      rewrite <- Htrim. split; [apply trim_start_fixed|apply trim_rev_fixed].
    - split; [done|by apply trim_fixed]. }
  assert (Hout : Detector.extractResponse before after = join [NL] kept).
  { unfold Detector.extractResponse. fold kept.
    destruct kept as [|l rest] eqn:Hk; [reflexivity|].
    by apply Hjoin. }
  split; [exact Hout|]. split; [|split; [|exact Hkept]].
  - rewrite Hout. split.
    + intros Hempty. destruct kept as [|l rest] eqn:Hk; [done|].
      destruct Hjoin as [Jne _]; done.
    + intros ->. reflexivity.
  - intros Hne. rewrite Hout. apply split_join; [done|].
    eapply Forall_impl; [exact Hkept|]. by intros l (_ & _ & H).
Qed.

(* ================================================================== *)
(** * Properties of content/chatgpt.js *)
(* ================================================================== *)

Section ChatGptFacts.

Import ChatGpt.

Lemma captured_app a b : captured (a ++ b) = captured a ++ captured b.
Proof.
  induction a as [|x a IH]; [done|]. cbn [app captured].
  destruct x as [| | |[]|]; cbn [app]; by rewrite ?IH.
Qed.

Lemma busyStates_app a b : busyStates (a ++ b) = busyStates a ++ busyStates b.
Proof.
  induction a as [|x a IH]; [done|]. cbn [app busyStates].
  destruct x; cbn [app]; by rewrite ?IH.
Qed.

Lemma onError_quiet message :
  captured (onError message) = [] ∧ busyStates (onError message) = []
  ∧ ∃ text, onError message = [ConsoleError; Alert text].
Proof.
  unfold onError. destruct message as [m|]; [|eauto].
  destruct (truthy m && includes m _); eauto.
Qed.

End ChatGptFacts.

(** The turns are exactly the qualifying containers, in document order: a
    container qualifies when its role is [user] or [assistant] and its
    stripped text is not empty once trimmed, and its turn carries that role
    and that trimmed text.  So every turn has one of the two roles and a
    content that is not empty and has no surrounding white space, no
    qualifying container is dropped, and there are no more turns than
    containers. *)
Theorem captureMessages_turns (containers : list ChatGpt.MessageEl) :
  ChatGpt.captureMessages containers
    = map (λ el, {| ChatGpt.role := ChatGpt.messageAuthorRole el;
                    ChatGpt.content := trim (ChatGpt.strippedInnerText el) |})
        (filter (λ el,
                   (ChatGpt.messageAuthorRole el = lit "user"
                    ∨ ChatGpt.messageAuthorRole el = lit "assistant")
                   ∧ trim (ChatGpt.strippedInnerText el) ≠ [])
           containers)
  ∧ Forall (λ turn,
              (ChatGpt.role turn = lit "user"
               ∨ ChatGpt.role turn = lit "assistant")
              ∧ ChatGpt.content turn ≠ []
              ∧ trim (ChatGpt.content turn) = ChatGpt.content turn)
      (ChatGpt.captureMessages containers)
  ∧ sublist (ChatGpt.captureMessages containers)
      (map (λ el, {| ChatGpt.role := ChatGpt.messageAuthorRole el;
                     ChatGpt.content := ChatGpt.extractContent el |})
         containers)
  ∧ (length (ChatGpt.captureMessages containers) ≤ length containers)%nat.
Proof.
  split.
  { induction containers as [|el rest IH]; [done|].
    cbn [ChatGpt.captureMessages]. rewrite filter_cons.
    unfold ChatGpt.extractContent.
    destruct (sameString (ChatGpt.messageAuthorRole el) (lit "user")) eqn:Hu;
      [|destruct (sameString (ChatGpt.messageAuthorRole el) (lit "assistant"))
          eqn:Ha];
      cbn [negb andb].
    - apply sameString_eq in Hu.
      destruct (trim (ChatGpt.strippedInnerText el)) as [|c r] eqn:Hcontent;
        cbn [truthy negb].
      + rewrite decide_False by (by intros [_ ?]). exact IH.
      + rewrite decide_True by (split; [by left|done]).
        cbn [map]. by rewrite Hcontent, IH.
    - apply sameString_eq in Ha.
      destruct (trim (ChatGpt.strippedInnerText el)) as [|c r] eqn:Hcontent;
        cbn [truthy negb].
      + rewrite decide_False by (by intros [_ ?]). exact IH.
      + rewrite decide_True by (split; [by right|done]).
        cbn [map]. by rewrite Hcontent, IH.
    - rewrite decide_False; [exact IH|].
      intros [[H|H] _]; apply sameString_eq in H; congruence. }
  induction containers as [|el rest (IH1 & IH2 & IH3)];
    [cbn; split; [constructor|split; [constructor|lia]]|].
  cbn [ChatGpt.captureMessages map length].
  destruct (sameString (ChatGpt.messageAuthorRole el) (lit "user")) eqn:Hu;
    [|destruct (sameString (ChatGpt.messageAuthorRole el) (lit "assistant"))
        eqn:Ha];
    cbn [negb andb];
    try (destruct (ChatGpt.extractContent el) as [|c r] eqn:Hcontent;
         cbn [truthy negb]);
    try (split; [done|split; [by apply sublist_cons|lia]]).
  - split; [|split; [by apply sublist_skip|cbn [length]; lia]].
    constructor; [|done]. cbn [ChatGpt.role ChatGpt.content].
    apply sameString_eq in Hu. split; [by left|]. split; [done|].
    rewrite <- Hcontent. apply trim_idem.
  - split; [|split; [by apply sublist_skip|cbn [length]; lia]].
    constructor; [|done]. cbn [ChatGpt.role ChatGpt.content].
    apply sameString_eq in Ha. split; [by right|]. split; [done|].
    rewrite <- Hcontent. apply trim_idem.
Qed.

(** A click sends at most one [CAPTURE]: exactly when the page holds a
    turn, the summary was produced and sending did not throw, and then it
    carries that summary.  With no turn on the page the click only shows
    the alert: nothing is summarized or sent. *)
Theorem handleClick_capture (c : ChatGpt.Click) :
  ChatGpt.captured (ChatGpt.handleClick c)
    = match ChatGpt.captureMessages (ChatGpt.containers c),
            ChatGpt.summarized c, ChatGpt.sendThrows c with
      | _ :: _, inl summary, None => [summary]
      | _, _, _ => []
      end
  ∧ (ChatGpt.captureMessages (ChatGpt.containers c) = [] →
     ChatGpt.handleClick c = [ChatGpt.Alert ChatGpt.NO_MESSAGES]).
Proof.
  unfold ChatGpt.handleClick.
  destruct (ChatGpt.captureMessages (ChatGpt.containers c)) as [|turn turns];
    cbn [length Nat.eqb]; [done|].
  split; [|done].
  rewrite captured_app. cbn [app].
  assert (Hbusy : ∀ b, ChatGpt.captured (ChatGpt.setBusy (ChatGpt.buttonFound c) b) = []).
  { intros b. unfold ChatGpt.setBusy. by destruct (ChatGpt.buttonFound c). }
  rewrite Hbusy. cbn [app ChatGpt.captured]. rewrite captured_app, Hbusy, app_nil_r.
  destruct (ChatGpt.summarized c) as [summary|message].
  - destruct (ChatGpt.sendThrows c) as [message|]; [|done].
    apply onError_quiet.
  - apply onError_quiet.
Qed.

(** Whenever a click sets the button busy it sets it idle again, once and
    last, whether the summary was sent, summarizing failed or sending
    threw. *)
Theorem handleClick_restores_button (c : ChatGpt.Click) :
  ChatGpt.busyStates (ChatGpt.handleClick c)
    = match ChatGpt.captureMessages (ChatGpt.containers c) with
      | [] => []
      | _ :: _ => if ChatGpt.buttonFound c then [true; false] else []
      end
  ∧ (ChatGpt.busyStates (ChatGpt.handleClick c) ≠ [] →
     List.last (ChatGpt.handleClick c) ChatGpt.Summarize
       = ChatGpt.SetBusy false).
Proof.
  unfold ChatGpt.handleClick.
  destruct (ChatGpt.captureMessages (ChatGpt.containers c)) as [|turn turns];
    cbn [length Nat.eqb]; [done|].
  assert (Hmid : ChatGpt.busyStates
    match ChatGpt.summarized c with
    | inl summary =>
        match ChatGpt.sendThrows c with
        | Some message => ChatGpt.onError message
        | None =>
            [ChatGpt.RuntimeSendMessage (Protocol.CAPTURE summary)]
        end
    | inr message => ChatGpt.onError message
    end = []).
  { destruct (ChatGpt.summarized c) as [summary|message];
      [destruct (ChatGpt.sendThrows c) as [message|]; [|done]|];
      apply onError_quiet. }
  unfold ChatGpt.setBusy. destruct (ChatGpt.buttonFound c); cbn [negb app].
  - split.
    + cbn [ChatGpt.busyStates]. by rewrite busyStates_app, Hmid.
    + intros _.
      match goal with
      | |- context [ChatGpt.Summarize :: ?m ++ _] => generalize m
      end.
      intros mid.
      change (List.last
                ((ChatGpt.SetBusy true :: ChatGpt.Summarize :: mid)
                   ++ [ChatGpt.SetBusy false]) ChatGpt.Summarize
              = ChatGpt.SetBusy false).
      apply last_last.
  - cbn [ChatGpt.busyStates]. rewrite app_nil_r, Hmid. done.
Qed.

(* ================================================================== *)
(** * Properties of the Claude page *)
(* ================================================================== *)

(** [submitClaudeInput] never fails when it is given an input element: it
    makes one gesture, a single click or focus and Enter, and returns
    [true]; without an element it succeeds exactly when the send button is
    found.  So a flow whose [submitted] is the value returned for the input
    it waited for never throws the submit error. *)
Theorem submit_with_input_never_fails (byAriaLabel : option nat) :
  (∀ el,
     (ClaudePage.submitClaudeInput byAriaLabel (Some el)).2 = true
     ∧ ((∃ button, (ClaudePage.submitClaudeInput byAriaLabel (Some el)).1
                   = [ClaudePage.Click button])
        ∨ (ClaudePage.submitClaudeInput byAriaLabel (Some el)).1
          = [ClaudePage.Focus; ClaudePage.KeydownEnter]))
  ∧ ((ClaudePage.submitClaudeInput byAriaLabel None).2 = true
     ↔ is_Some byAriaLabel)
  ∧ (∀ el page contextBlock,
       AgentB.submitted page
         = (ClaudePage.submitClaudeInput byAriaLabel (Some el)).2 →
       (AgentB.runInjectionFlow page contextBlock).2
         ≠ AgentB.Threw "Could not submit to Claude — no send button found.").
Proof.
  split; [|split].
  - intros [[[btn|]|]]; unfold ClaudePage.submitClaudeInput;
      destruct byAriaLabel; cbn; eauto.
  - unfold ClaudePage.submitClaudeInput. destruct byAriaLabel; cbn.
    + split; eauto.
    + split; [discriminate|]. intros [x Hx]. discriminate Hx.
  - intros el page contextBlock Hsub.
    assert (Htrue : AgentB.submitted page = true).
    { rewrite Hsub. unfold ClaudePage.submitClaudeInput.
      destruct byAriaLabel; [done|]. by destruct (ClaudePage.container el) as [[|]|]. }
    unfold AgentB.runInjectionFlow. rewrite Htrue.
    destruct (AgentB.inputFound page); cbn [negb]; [|discriminate].
    destruct (Detector.waitForClaudeResponse _ _) as [k [r|m]|p] eqn:Hwait;
      try discriminate.
    + destruct (truthy r); discriminate.
    + unfold Detector.waitForClaudeResponse, Detector.waitFor in Hwait.
      apply poll_clock in Hwait as [-> _]; [discriminate|done].
Qed.

(* ================================================================== *)
(** * More on the coordinator: single turns *)
(* ================================================================== *)

Section TurnFacts.

Import Protocol Coordinator Routing.

(** A turn that leaves the tables alone and asks for no tab returns the
    world it was given. *)
Lemma world_same w :
  {| tables := tables w; creating := creating w ++ []; created := created w |}
  = w.
Proof. rewrite app_nil_r. by destruct w. Qed.

Lemma turn_unchanged w message sender effects :
  onMessage (tables w) message sender = (tables w, effects) →
  requested effects = [] →
  turn w (Deliver message sender) = Some (w, effects).
Proof.
  intros Hmsg Hreq. unfold turn. rewrite Hmsg, Hreq. by rewrite world_same.
Qed.

Lemma critiques_app a b : critiques (a ++ b) = critiques a ++ critiques b.
Proof.
  induction a as [|x a IH]; [done|]. destruct x; cbn [app critiques];
    by rewrite ?IH.
Qed.

Lemma requested_app a b : requested (a ++ b) = requested a ++ requested b.
Proof.
  induction a as [|x a IH]; [done|]. destruct x; cbn [app requested];
    by rewrite ?IH.
Qed.

Lemma handleCapture_shape summary sender :
  critiques (handleCapture summary sender) = []
  ∧ (requested (handleCapture summary sender) = []
     ∨ ∃ block s, summary = Some block ∧ truthyTab sender = Some s
         ∧ requested (handleCapture summary sender)
           = [{| contextBlock := Format.formatContextBlock block;
                 sourceTabId := s |}]).
Proof.
  unfold handleCapture. destruct summary as [block|]; [|by split; [|left]].
  destruct (truthyTab sender) as [s|]; [|by split; [|left]].
  split; [done|]. right. eauto.
Qed.

End TurnFacts.

(** A [CLAUDE_READY] from a tab with a truthy id and a [pendingContext]
    entry is answered with that entry's context block; the entry moves to
    [pendingReview] under the same key, keeping its source tab, and nothing
    else changes. *)
Theorem ready_serves_recorded_context (w : Coordinator.World) (t : Z)
    (e : Coordinator.ContextEntry) :
  t ≠ 0 →
  Coordinator.pendingContext (Coordinator.tables w) !! t = Some e →
  ∃ w',
    Coordinator.turn w (Coordinator.Deliver Protocol.CLAUDE_READY (Some t))
      = Some (w', [Coordinator.SendResponse
                     (Protocol.INJECT (Coordinator.contextBlock e))])
    ∧ Coordinator.pendingContext (Coordinator.tables w')
      = delete t (Coordinator.pendingContext (Coordinator.tables w))
    ∧ Coordinator.pendingReview (Coordinator.tables w')
      = <[t := Coordinator.sourceTabId e]>
          (Coordinator.pendingReview (Coordinator.tables w))
    ∧ Coordinator.creating w' = Coordinator.creating w
    ∧ Coordinator.created w' = Coordinator.created w.
Proof.
  intros Ht He. unfold Coordinator.turn, Coordinator.onMessage.
  rewrite (truthyTab_nonzero t Ht), He.
  eexists. split; [reflexivity|]. simpl. by rewrite app_nil_r.
Qed.

Lemma ready_serves_recorded_context_witness :
  ∃ w',
    Coordinator.turn Samples.awaiting
      (Coordinator.Deliver Protocol.CLAUDE_READY (Some Samples.claudeTab))
      = Some (w', [Coordinator.SendResponse
                     (Protocol.INJECT
                        (Coordinator.contextBlock Samples.closure))])
    ∧ Coordinator.pendingContext (Coordinator.tables w')
      = delete Samples.claudeTab
          (Coordinator.pendingContext (Coordinator.tables Samples.awaiting))
    ∧ Coordinator.pendingReview (Coordinator.tables w')
      = <[Samples.claudeTab := Coordinator.sourceTabId Samples.closure]>
          (Coordinator.pendingReview (Coordinator.tables Samples.awaiting))
    ∧ Coordinator.creating w' = Coordinator.creating Samples.awaiting
    ∧ Coordinator.created w' = Coordinator.created Samples.awaiting.
Proof.
  apply (ready_serves_recorded_context Samples.awaiting Samples.claudeTab
           Samples.closure).
  - vm_compute. discriminate.
  - vm_compute. reflexivity.
Defined.

(** A message whose sender has no tab, or the tab id 0, never changes the
    world, whatever the tables hold: no tab is opened, no critique is sent,
    and a [CLAUDE_READY] is answered [null]. *)
Theorem falsy_sender_changes_nothing (w : Coordinator.World)
    (message : Protocol.Message) (sender : option Z) :
  Coordinator.truthyTab sender = None →
  ∃ effects,
    Coordinator.turn w (Coordinator.Deliver message sender)
      = Some (w, effects)
    ∧ Coordinator.requested effects = []
    ∧ Routing.critiques effects = []
    ∧ Routing.replyOf effects
      = match message with
        | Protocol.CLAUDE_READY => Some Protocol.NULL
        | _ => None
        end.
Proof.
  intros Hfalsy.
  assert (H : ∃ effects,
    Coordinator.onMessage (Coordinator.tables w) message sender
      = (Coordinator.tables w, effects)
    ∧ Coordinator.requested effects = []
    ∧ Routing.critiques effects = []
    ∧ Routing.replyOf effects
      = match message with
        | Protocol.CLAUDE_READY => Some Protocol.NULL
        | _ => None
        end).
  { unfold Coordinator.onMessage, Coordinator.handleCapture.
    rewrite Hfalsy. destruct message as [[summary|]| |content|]; eauto. }
  destruct H as (effects & Hmsg & Hreq & Hrest). exists effects.
  split; [|by split].
  apply turn_unchanged; done.
Qed.

Lemma falsy_sender_changes_nothing_witness :
  ∃ effects,
    Coordinator.turn Samples.awaiting
      (Coordinator.Deliver Protocol.CLAUDE_READY (Some 0))
      = Some (Samples.awaiting, effects)
    ∧ Coordinator.requested effects = []
    ∧ Routing.critiques effects = []
    ∧ Routing.replyOf effects = Some Protocol.NULL.
Proof.
  apply (falsy_sender_changes_nothing Samples.awaiting Protocol.CLAUDE_READY
           (Some 0)).
  reflexivity.
Defined.

(** A context is served once: whatever the first [CLAUDE_READY] of a
    sender did, a second one right after it is answered [null] and changes
    nothing. *)
Theorem ready_is_served_once (w : Coordinator.World) (sender : option Z) :
  ∃ w1 effects,
    Coordinator.turn w (Coordinator.Deliver Protocol.CLAUDE_READY sender)
      = Some (w1, effects)
    ∧ Coordinator.turn w1 (Coordinator.Deliver Protocol.CLAUDE_READY sender)
      = Some (w1, [Coordinator.SendResponse Protocol.NULL]).
Proof.
  unfold Coordinator.turn at 1. unfold Coordinator.onMessage.
  destruct (Coordinator.truthyTab sender) as [t|] eqn:Ht.
  - destruct (Coordinator.pendingContext (Coordinator.tables w) !! t)
      as [e|] eqn:He.
    + eexists _, _. split; [reflexivity|].
      unfold Coordinator.turn, Coordinator.onMessage. rewrite Ht. simpl.
      rewrite lookup_delete_eq. by rewrite !app_nil_r.
    + eexists _, _. split; [reflexivity|]. rewrite world_same.
      unfold Coordinator.turn, Coordinator.onMessage. rewrite Ht, He.
      by rewrite world_same.
  - eexists _, _. split; [reflexivity|]. rewrite world_same.
    unfold Coordinator.turn, Coordinator.onMessage. rewrite Ht.
    by rewrite world_same.
Qed.

(** A review is forwarded once: after a [CLAUDE_RESPONSE] of a sender, a
    further one from the same sender sends nothing and changes nothing. *)
Theorem response_is_forwarded_once (w : Coordinator.World)
    (sender : option Z) (content : jsstring) :
  ∃ w1 effects,
    Coordinator.turn w
      (Coordinator.Deliver (Protocol.CLAUDE_RESPONSE content) sender)
      = Some (w1, effects)
    ∧ ∀ again,
        Coordinator.turn w1
          (Coordinator.Deliver (Protocol.CLAUDE_RESPONSE again) sender)
        = Some (w1, []).
Proof.
  unfold Coordinator.turn at 1. unfold Coordinator.onMessage.
  destruct (Coordinator.truthyTab sender) as [t|] eqn:Ht.
  - destruct (Coordinator.pendingReview (Coordinator.tables w) !! t)
      as [s|] eqn:Hs.
    + destruct (s =? 0) eqn:Hzero.
      * eexists _, _. split; [reflexivity|]. intros again.
        rewrite world_same.
        unfold Coordinator.turn, Coordinator.onMessage.
        rewrite Ht, Hs, Hzero. by rewrite world_same.
      * eexists _, _. split; [reflexivity|]. intros again.
        unfold Coordinator.turn, Coordinator.onMessage. rewrite Ht. simpl.
        rewrite lookup_delete_eq. by rewrite !app_nil_r.
    + eexists _, _. split; [reflexivity|]. intros again. rewrite world_same.
      unfold Coordinator.turn, Coordinator.onMessage. rewrite Ht, Hs.
      by rewrite world_same.
  - eexists _, _. split; [reflexivity|]. intros again. rewrite world_same.
    unfold Coordinator.turn, Coordinator.onMessage. rewrite Ht.
    by rewrite world_same.
Qed.

(* ================================================================== *)
(** * More on the coordinator: whole runs *)
(* ================================================================== *)

Section RunFacts.

Import Protocol Coordinator Routing.

Lemma run_cons w e rest w' effects :
  run w (e :: rest) = Some (w', effects) →
  ∃ w1 eff1 eff2,
    turn w e = Some (w1, eff1) ∧ run w1 rest = Some (w', eff2)
    ∧ effects = eff1 ++ eff2.
Proof.
  simpl. destruct (turn w e) as [[w1 eff1]|]; [|discriminate].
  destruct (run w1 rest) as [[w2 eff2]|] eqn:Hrest; [|discriminate].
  intros [= <- <-]. by exists w1, eff1, eff2.
Qed.

Lemma capturers_nonzero events s : s ∈ capturers events → s ≠ 0.
Proof.
  induction events as [|e rest IH]; cbn [capturers]; [by intros ?%elem_of_nil|].
  destruct e as [[[summary|]| | |] sender|n tab]; try exact IH.
  destruct (truthyTab sender) as [t|] eqn:Ht; [|exact IH].
  intros [->|H]%elem_of_cons; [|by apply IH].
  by apply truthyTab_Some in Ht as [_ Ht].
Qed.

(** A turn records only sources that captured in it or were recorded
    before, and sends critiques only to recorded sources, each made of a
    response delivered in that turn. *)
Lemma turn_sourced (S : Z → Prop) w e w' effects :
  sourced S w →
  (∀ s, s ∈ capturers [e] → S s) →
  turn w e = Some (w', effects) →
  sourced S w'
  ∧ ∀ s c, (s, c) ∈ critiques effects →
      S s ∧ ∃ content, content ∈ responses [e]
                       ∧ c = CRITIQUE_PREFIX ++ content.
Proof.
  intros (Hpc & Hpr & Hcr) Hcap. destruct e as [message sender|n tab]; simpl.
  - destruct message as [summary| |content|]; simpl.
    + intros [= <- <-].
      destruct (handleCapture_shape summary sender) as [Hcrit Hreq].
      rewrite Hcrit. split; [|by intros s c ?%elem_of_nil].
      split; [done|]. split; [done|]. simpl. apply Forall_app. split; [done|].
      destruct Hreq as [->|(block & s & -> & Hs & ->)]; [constructor|].
      repeat constructor. simpl. apply Hcap. simpl. rewrite Hs. by left.
    + destruct (truthyTab sender) as [t|]; simpl;
        [|intros [= <- <-]; split; [|by intros s c ?%elem_of_nil];
          repeat split; simpl; rewrite ?app_nil_r; done].
      destruct (pendingContext (tables w) !! t) as [entry|] eqn:He; simpl;
        intros [= <- <-]; (split; [|by intros s c ?%elem_of_nil]);
        [|repeat split; simpl; rewrite ?app_nil_r; done].
      split; [|split]; simpl.
      * intros u e' Hu. apply lookup_delete_Some in Hu as [_ Hu]. eauto.
      * intros u s Hu. apply lookup_insert_Some in Hu as [[_ <-]|[_ Hu]];
          eauto.
      * by rewrite app_nil_r.
    + destruct (truthyTab sender) as [t|]; simpl;
        [|intros [= <- <-]; split; [|by intros s c ?%elem_of_nil];
          repeat split; simpl; rewrite ?app_nil_r; done].
      destruct (pendingReview (tables w) !! t) as [src|] eqn:Hs; simpl;
        [|intros [= <- <-]; split; [|by intros s c ?%elem_of_nil];
          repeat split; simpl; rewrite ?app_nil_r; done].
      destruct (src =? 0); simpl; intros [= <- <-].
      * split; [|by intros s c ?%elem_of_nil].
        repeat split; simpl; rewrite ?app_nil_r; done.
      * split.
        -- split; [done|]. split; simpl; [|by rewrite app_nil_r].
           intros u s Hu. apply lookup_delete_Some in Hu as [_ Hu]. eauto.
        -- intros s c Hin. apply list_elem_of_singleton in Hin as [= -> ->].
           split; [eauto|]. exists content. split; [by left|done].
    + intros [= <- <-]. split; [|by intros s c ?%elem_of_nil].
      repeat split; simpl; rewrite ?app_nil_r; done.
  - destruct (creating w !! n) as [closure|] eqn:Hn; [|discriminate].
    assert (Hclosure : S (sourceTabId closure)).
    { eapply Forall_lookup_1 in Hcr; eauto. }
    destruct tab as [id|]; simpl.
    + destruct (bool_decide (id ∉ created w)); [|discriminate].
      intros [= <- <-]. split; [|by intros s c ?%elem_of_nil].
      split; [|split]; simpl; [|done|by apply Forall_remove_nth].
      intros u e' Hu. apply lookup_insert_Some in Hu as [[_ <-]|[_ Hu]]; eauto.
    + intros [= <- <-]. split; [|by intros s c ?%elem_of_nil].
      split; [done|]. split; [done|]. simpl. by apply Forall_remove_nth.
Qed.

Lemma capturers_cons e rest : capturers (e :: rest) = capturers [e] ++ capturers rest.
Proof.
  destruct e as [[[summary|]| | |] sender|n tab]; try done.
  cbn [capturers]. by destruct (truthyTab sender).
Qed.

Lemma responses_cons e rest : responses (e :: rest) = responses [e] ++ responses rest.
Proof. by destruct e as [[[summary|]| | |] sender|n tab]. Qed.

Lemma run_sourced (S : Z → Prop) events : ∀ w w' effects,
  sourced S w →
  (∀ s, s ∈ capturers events → S s) →
  run w events = Some (w', effects) →
  ∀ s c, (s, c) ∈ critiques effects →
    S s ∧ ∃ content, content ∈ responses events
                     ∧ c = CRITIQUE_PREFIX ++ content.
Proof.
  induction events as [|e rest IH]; intros w w' effects Hw Hcap Hrun.
  - injection Hrun as <- <-. by intros s c ?%elem_of_nil.
  - apply run_cons in Hrun as (w1 & eff1 & eff2 & Hturn & Hrest & ->).
    rewrite capturers_cons in Hcap.
    destruct (turn_sourced S w e w1 eff1 Hw) as [Hw1 Hsent]; [|done|].
    { intros s Hs. apply Hcap, elem_of_app. by left. }
    intros s c. rewrite critiques_app, elem_of_app. rewrite responses_cons.
    intros [Hin|Hin].
    + destruct (Hsent s c Hin) as (HS & content & Hc & ->).
      split; [done|]. exists content. split; [|done].
      apply elem_of_app. by left.
    + destruct (IH w1 w' eff2 Hw1) with (s := s) (c := c)
        as (HS & content & Hc & ->); [|done|done|].
      { intros u Hu. apply Hcap, elem_of_app. by right. }
      split; [done|]. exists content. split; [|done].
      apply elem_of_app. by right.
Qed.

(** A turn sends at most as many critiques as it takes sessions out of
    flight, and puts in flight at most as many as the tabs it asks for. *)
Lemma turn_inFlight w e w' effects :
  turn w e = Some (w', effects) →
  (length (critiques effects) + inFlight w'
   ≤ inFlight w + length (requested effects))%nat.
Proof.
  unfold inFlight. destruct e as [message sender|n tab]; simpl.
  - destruct message as [summary| |content|]; simpl.
    + intros [= <- <-]. simpl. rewrite length_app.
      destruct (handleCapture_shape summary sender) as [-> _]. simpl. lia.
    + destruct (truthyTab sender) as [t|]; simpl;
        [|intros [= <- <-]; simpl; rewrite app_nil_r; lia].
      destruct (pendingContext (tables w) !! t) as [entry|] eqn:He; simpl;
        intros [= <- <-]; simpl; rewrite app_nil_r; [|lia].
      rewrite map_size_delete, He, map_size_insert.
      assert (0 < size (pendingContext (tables w)))%nat.
      { destruct (decide (size (pendingContext (tables w)) = 0%nat)) as [Hz|];
          [|lia].
        apply map_size_empty_inv in Hz. rewrite Hz, lookup_empty in He.
        discriminate. }
      destruct (pendingReview (tables w) !! t); simpl; lia.
    + destruct (truthyTab sender) as [t|]; simpl;
        [|intros [= <- <-]; simpl; rewrite app_nil_r; lia].
      destruct (pendingReview (tables w) !! t) as [src|] eqn:Hs; simpl;
        [|intros [= <- <-]; simpl; rewrite app_nil_r; lia].
      destruct (src =? 0); simpl; intros [= <- <-]; simpl;
        rewrite app_nil_r; [lia|].
      rewrite map_size_delete, Hs.
      assert (0 < size (pendingReview (tables w)))%nat.
      { destruct (decide (size (pendingReview (tables w)) = 0%nat)) as [Hz|];
          [|lia].
        apply map_size_empty_inv in Hz. rewrite Hz, lookup_empty in Hs.
        discriminate. }
      simpl. lia.
    + intros [= <- <-]. simpl. rewrite app_nil_r. lia.
  - destruct (creating w !! n) as [closure|] eqn:Hn; [|discriminate].
    assert (Hlen : (length (take n (creating w) ++ drop (S n) (creating w))
                    + 1 = length (creating w))%nat).
    { apply lookup_lt_Some in Hn. rewrite length_app, length_take, length_drop.
      lia. }
    destruct tab as [id|]; simpl.
    + destruct (bool_decide (id ∉ created w)); [|discriminate].
      intros [= <- <-]. simpl. rewrite map_size_insert.
      destruct (pendingContext (tables w) !! id); simpl; lia.
    + intros [= <- <-]. simpl. lia.
Qed.

Lemma run_inFlight events : ∀ w w' effects,
  run w events = Some (w', effects) →
  (length (critiques effects) + inFlight w'
   ≤ inFlight w + length (requested effects))%nat.
Proof.
  induction events as [|e rest IH]; intros w w' effects Hrun.
  - injection Hrun as <- <-. simpl. lia.
  - apply run_cons in Hrun as (w1 & eff1 & eff2 & Hturn & Hrest & ->).
    apply turn_inFlight in Hturn. apply IH in Hrest.
    rewrite critiques_app, requested_app, !length_app. lia.
Qed.

End RunFacts.

(** In every run from the start, a critique goes only to a tab that sent a
    [CAPTURE] carrying an object earlier in the run, never to tab 0, and
    its content is the review instruction followed by the content of a
    [CLAUDE_RESPONSE] delivered in the run. *)
Theorem critiques_answer_captures (events : list Coordinator.Event)
    (w : Coordinator.World) (effects : list Coordinator.Effect) :
  Coordinator.run Coordinator.initial events = Some (w, effects) →
  ∀ s c, (s, c) ∈ Routing.critiques effects →
    s ∈ Routing.capturers events
    ∧ s ≠ 0
    ∧ ∃ content, content ∈ Routing.responses events
                 ∧ c = Coordinator.CRITIQUE_PREFIX ++ content.
Proof.
  intros Hrun s c Hin.
  destruct (run_sourced (λ s, s ∈ Routing.capturers events) events
              Coordinator.initial w effects) with (s := s) (c := c)
    as (Hs & Hc); [|done|done|done|].
  - split; [|split]; simpl; [| |constructor];
      intros ? ?; rewrite lookup_empty; discriminate.
  - split; [done|]. split; [|done]. by eapply capturers_nonzero.
Qed.

Lemma critiques_answer_captures_witness :
  Samples.chatTab ∈ Routing.capturers Samples.sessionEvents
  ∧ Samples.chatTab ≠ 0
  ∧ ∃ content, content ∈ Routing.responses Samples.sessionEvents
               ∧ Coordinator.CRITIQUE_PREFIX ++ Samples.streamed
                 = Coordinator.CRITIQUE_PREFIX ++ content.
Proof.
  apply (critiques_answer_captures Samples.sessionEvents
           {| Coordinator.tables := Coordinator.empty;
              Coordinator.creating := [];
              Coordinator.created := {[ Samples.claudeTab ]} |}
           (Samples.effectsOf Samples.sessionEvents)).
  - vm_compute. reflexivity.
  - vm_compute. left.
Defined.

(** In every run from the start, the critiques sent and the sessions still
    in flight (entries of both tables and tabs being created) together
    never outnumber the tabs the coordinator asked the browser to open:
    one capture yields at most one critique. *)
Theorem critiques_bounded_by_tabs (events : list Coordinator.Event)
    (w : Coordinator.World) (effects : list Coordinator.Effect) :
  Coordinator.run Coordinator.initial events = Some (w, effects) →
  (length (Routing.critiques effects) + Routing.inFlight w
   ≤ length (Coordinator.requested effects))%nat.
Proof.
  intros Hrun. apply run_inFlight in Hrun.
  unfold Routing.inFlight in Hrun at 2. simpl in Hrun.
  rewrite !map_size_empty in Hrun. simpl in Hrun. lia.
Qed.

Lemma critiques_bounded_by_tabs_witness :
  (length (Routing.critiques (Samples.effectsOf Samples.sessionEvents))
   + Routing.inFlight
       {| Coordinator.tables := Coordinator.empty;
          Coordinator.creating := [];
          Coordinator.created := {[ Samples.claudeTab ]} |}
   ≤ length (Coordinator.requested
               (Samples.effectsOf Samples.sessionEvents)))%nat.
Proof.
  apply (critiques_bounded_by_tabs Samples.sessionEvents).
  vm_compute. reflexivity.
Defined.

(** One session on top of any reachable world, with a truthy capturing
    tab and a new truthy Claude tab: the browser is asked for one tab, the
    Claude tab is served the formatted summary, the critique goes back to
    the capturing tab, and both tables end exactly as they were. *)
Theorem session_round_trip (w : Coordinator.World)
    (summary : Format.Summary) (s t : Z) (content : jsstring) :
  Coordinator.reachable w →
  s ≠ 0 → t ≠ 0 → t ∉ Coordinator.created w →
  ∃ w',
    Coordinator.run w (Routing.session w summary s t content)
      = Some (w',
              [ Coordinator.TabsCreate "https://claude.ai"
                  {| Coordinator.contextBlock :=
                       Format.formatContextBlock summary;
                     Coordinator.sourceTabId := s |};
                Coordinator.SendResponse
                  (Protocol.INJECT (Format.formatContextBlock summary));
                Coordinator.TabsSendMessage s
                  (Coordinator.CRITIQUE_PREFIX ++ content) ])
    ∧ Coordinator.tables w' = Coordinator.tables w
    ∧ Coordinator.creating w' = Coordinator.creating w
    ∧ Coordinator.created w' = {[ t ]} ∪ Coordinator.created w.
Proof.
  intros Hreach Hs Ht Hfresh. apply reachable_consistent in Hreach.
  assert (Hpc : Coordinator.pendingContext (Coordinator.tables w) !! t = None).
  { destruct (Coordinator.pendingContext (Coordinator.tables w) !! t) eqn:H;
      [|done].
    exfalso. apply Hfresh. eapply Coordinator.context_created; eauto. }
  assert (Hpr : Coordinator.pendingReview (Coordinator.tables w) !! t = None).
  { destruct (Coordinator.pendingReview (Coordinator.tables w) !! t) eqn:H;
      [|done].
    exfalso. apply Hfresh. eapply Coordinator.review_created; eauto. }
  set (closure := {| Coordinator.contextBlock :=
                       Format.formatContextBlock summary;
                     Coordinator.sourceTabId := s |}).
  unfold Routing.session. cbn [Coordinator.run].
  (* the capture *)
  unfold Coordinator.turn at 1.
  cbn [Coordinator.onMessage Coordinator.handleCapture].
  rewrite (truthyTab_nonzero s Hs).
  cbn [Coordinator.requested Coordinator.tables Coordinator.creating
       Coordinator.created].
  (* the callback *)
  unfold Coordinator.turn at 1.
  cbn [Coordinator.tables Coordinator.creating Coordinator.created].
  rewrite lookup_app_r, Nat.sub_diag by lia. cbn [lookup list_lookup].
  rewrite (bool_decide_eq_true_2 _ Hfresh).
  cbn [Coordinator.onTabCreated Coordinator.tables Coordinator.pendingContext
       Coordinator.pendingReview].
  rewrite take_app_length.
  rewrite drop_ge by (rewrite length_app; simpl; lia).
  (* ready *)
  unfold Coordinator.turn at 1.
  cbn [Coordinator.onMessage Coordinator.tables Coordinator.pendingContext
       Coordinator.pendingReview Coordinator.creating Coordinator.created].
  rewrite (truthyTab_nonzero t Ht), lookup_insert_eq.
  cbn [Coordinator.requested Coordinator.tables Coordinator.creating
       Coordinator.created Coordinator.contextBlock Coordinator.sourceTabId].
  (* the response *)
  unfold Coordinator.turn at 1.
  cbn [Coordinator.onMessage Coordinator.tables Coordinator.pendingContext
       Coordinator.pendingReview Coordinator.creating Coordinator.created].
  rewrite (truthyTab_nonzero t Ht), lookup_insert_eq.
  destruct (Z.eqb_spec s 0) as [|_]; [done|].
  cbn [Coordinator.sendCritiqueToTab Coordinator.requested app].
  eexists. split; [reflexivity|].
  cbn [Coordinator.tables Coordinator.creating Coordinator.created].
  rewrite !delete_insert_id by done. rewrite !app_nil_r.
  split; [by destruct (Coordinator.tables w)|done].
Qed.

Lemma session_round_trip_witness :
  ∃ w',
    Coordinator.run Samples.reviewing
      (Routing.session Samples.reviewing Samples.summary 7 13
         Samples.streamed)
      = Some (w',
              [ Coordinator.TabsCreate "https://claude.ai"
                  {| Coordinator.contextBlock :=
                       Format.formatContextBlock Samples.summary;
                     Coordinator.sourceTabId := 7 |};
                Coordinator.SendResponse
                  (Protocol.INJECT
                     (Format.formatContextBlock Samples.summary));
                Coordinator.TabsSendMessage 7
                  (Coordinator.CRITIQUE_PREFIX ++ Samples.streamed) ])
    ∧ Coordinator.tables w' = Coordinator.tables Samples.reviewing
    ∧ Coordinator.creating w' = Coordinator.creating Samples.reviewing
    ∧ Coordinator.created w'
      = {[ 13 ]} ∪ Coordinator.created Samples.reviewing.
Proof.
  apply (session_round_trip Samples.reviewing Samples.summary 7 13
           Samples.streamed).
  - exists Samples.readyEvents, (Samples.effectsOf Samples.readyEvents).
    vm_compute. reflexivity.
  - vm_compute. discriminate.
  - vm_compute. discriminate.
  - vm_compute. discriminate.
Defined.

(* ================================================================== *)
(** * The coordinator and the Claude page together *)
(* ================================================================== *)

(** A regular visit: when the sender has no [pendingContext] entry, the
    reply the coordinator gives makes the ready callback return at once; the
    page is not touched and nothing is logged, with or without a runtime
    error. *)
Theorem regular_visit_untouched (w : Coordinator.World) (sender : option Z)
    (page : AgentB.Page) :
  (∀ t, sender = Some t →
        Coordinator.pendingContext (Coordinator.tables w) !! t = None) →
  ∃ effects reply,
    Coordinator.turn w (Coordinator.Deliver Protocol.CLAUDE_READY sender)
      = Some (w, effects)
    ∧ Routing.replyOf effects = Some reply
    ∧ ∀ lastError, ClaudePage.onReadyResponse lastError reply page = ([], []).
Proof.
  intros Hnone. exists [Coordinator.SendResponse Protocol.NULL], Protocol.NULL.
  split; [|split; [done|by intros []]].
  apply turn_unchanged; [|done]. simpl.
  destruct (Coordinator.truthyTab sender) as [t|] eqn:Ht; [|done].
  apply truthyTab_Some in Ht as [Ht _]. by rewrite (Hnone t Ht).
Qed.

Lemma regular_visit_untouched_witness :
  ∃ effects reply,
    Coordinator.turn Samples.reviewing
      (Coordinator.Deliver Protocol.CLAUDE_READY (Some Samples.claudeTab))
      = Some (Samples.reviewing, effects)
    ∧ Routing.replyOf effects = Some reply
    ∧ ∀ lastError,
        ClaudePage.onReadyResponse lastError reply Samples.labelsPage
        = ([], []).
Proof.
  apply (regular_visit_untouched Samples.reviewing (Some Samples.claudeTab)
           Samples.labelsPage).
  intros t [= <-]. vm_compute. reflexivity.
Defined.



(** The flow sends a [CLAUDE_RESPONSE] exactly when the input was found,
    the submit succeeded and the detector resolved with a non-empty
    response, and then it sends that response and nothing else. *)
Theorem flow_reports_resolved_response (page : AgentB.Page)
    (contextBlock content : jsstring) :
  content ∈ AgentB.reported (AgentB.runInjectionFlow page contextBlock).1
  ↔ AgentB.inputFound page = true
    ∧ AgentB.submitted page = true
    ∧ content ≠ []
    ∧ ∃ k, Detector.waitForClaudeResponse (AgentB.scopeEl page)
             (AgentB.snapshotText page)
           = Detector.Done k (Detector.Resolved content).
Proof.
  unfold AgentB.runInjectionFlow.
  destruct (AgentB.inputFound page); cbn [negb];
    [|split; [by intros ?%elem_of_nil|by intros [? _]]].
  destruct (AgentB.submitted page); cbn [negb];
    [|split; [by intros ?%elem_of_nil|by intros (_ & ? & _)]].
  destruct (Detector.waitForClaudeResponse _ _) as [k [r|m]|p]; cbn.
  - destruct r as [|c r]; cbn.
    + split; [by intros ?%elem_of_nil|].
      intros (_ & _ & Hne & k' & [= _ <-]). done.
    + split.
      * intros ->%list_elem_of_singleton. eauto 6.
      * intros (_ & _ & _ & k' & [= _ <-]). by left.
  - split; [by intros ?%elem_of_nil|]. by intros (_ & _ & _ & k' & ?).
  - split; [by intros ?%elem_of_nil|]. by intros (_ & _ & _ & k' & ?).
Qed.

(* ================================================================== *)
(** * More on the JSON text and the block *)
(* ================================================================== *)

Section QuoteFacts.

Import Json.

Lemma hexDigit_printable d : (32 ≤ hexDigit d)%N.
Proof. unfold hexDigit. destruct (d <? 10)%N; lia. Qed.

Lemma unicodeEscape_printable c : Forall (λ u, 32 ≤ u)%N (unicodeEscape c).
Proof.
  unfold unicodeEscape, BACKSLASH.
  repeat constructor; try apply hexDigit_printable; lia.
Qed.

Lemma quoteUnit_printable c : Forall (λ u, 32 ≤ u)%N (quoteUnit c).
Proof.
  unfold quoteUnit, BACKSLASH.
  repeat (match goal with
          | |- context [(c =? ?n)%N] => destruct (c =? n)%N
          end; [repeat constructor; lia|]).
  destruct (N.ltb_spec c 32); simpl orb; [apply unicodeEscape_printable|].
  destruct (_ || _); [apply unicodeEscape_printable|].
  by repeat constructor.
Qed.

Lemma quoteUnits_printable_bounded n : ∀ s,
  (length s ≤ n)%nat → Forall (λ u, 32 ≤ u)%N (quoteUnits s).
Proof.
  induction n as [|n IH]; intros s Hlen.
  - destruct s; [constructor|simpl in Hlen; lia].
  - destruct s as [|c s]; [constructor|]. simpl in Hlen. cbn [quoteUnits].
    destruct (isLeadingSurrogate c) eqn:Elead.
    + destruct s as [|d s]; [apply unicodeEscape_printable|].
      destruct (isTrailingSurrogate d) eqn:Etrail.
      * unfold isLeadingSurrogate in Elead.
        unfold isTrailingSurrogate in Etrail.
        apply andb_true_iff in Elead as [E1 _]. apply N.leb_le in E1.
        apply andb_true_iff in Etrail as [E2 _]. apply N.leb_le in E2.
        constructor; [lia|]. constructor; [lia|].
        apply IH. simpl in Hlen. lia.
      * apply Forall_app. split; [apply unicodeEscape_printable|].
        apply IH. lia.
    + apply Forall_app. split; [apply quoteUnit_printable|]. apply IH. lia.
Qed.

Lemma singleLine_printable s :
  Forall (λ u, 32 ≤ u)%N s → singleLine s = true.
Proof.
  induction 1 as [|c s Hc _ IH]; [done|]. cbn [singleLine forallb].
  fold (singleLine s). rewrite IH, andb_true_r.
  apply negb_true_iff, N.eqb_neq. unfold NL. lia.
Qed.

(** What follows the embedded object in a block. *)
Lemma parse_block summary :
  parseObject (Format.fromFirstBrace (Format.formatContextBlock summary))
  = Some (Format.members (Format.contextFields summary),
          [NL; NL] ++ Format.question summary).
Proof.
  rewrite formatContextBlock_shape. rewrite <- !app_assoc.
  rewrite fromFirstBrace_skip by reflexivity.
  rewrite (fromFirstBrace_skip [NL; NL]) by reflexivity.
  unfold Format.contextJson.
  assert (Hbrace : ∀ x,
    Format.fromFirstBrace
      (serializeObject (Format.members (Format.contextFields summary)) ++ x)
    = serializeObject (Format.members (Format.contextFields summary)) ++ x)
    by reflexivity.
  by rewrite Hbrace, parseObject_written.
Qed.

End QuoteFacts.

(** A quoted string holds no control character, whatever the string: line
    feeds, tabs and the like are written as escapes, so a quoted field
    stays on one line, between its two quotes. *)
Theorem quoted_text_has_no_control_unit (s : jsstring) :
  Forall (λ u, 32 ≤ u)%N (Json.quoteJSONString s)
  ∧ singleLine (Json.quoteJSONString s) = true
  ∧ ∃ body, Json.quoteJSONString s = [Json.QUOTE] ++ body ++ [Json.QUOTE].
Proof.
  assert (H : Forall (λ u, 32 ≤ u)%N (Json.quoteJSONString s)).
  { unfold Json.quoteJSONString, Json.QUOTE. constructor; [lia|].
    apply Forall_app. split; [|by repeat constructor].
    by apply (quoteUnits_printable_bounded (length s)). }
  split; [exact H|]. split; [by apply singleLine_printable|].
  by exists (Json.quoteUnits s).
Qed.

(** Quoting loses nothing: two strings with the same quoted text are the
    same string, unit for unit, lone surrogates included. *)
Theorem quoteJSONString_injective (a b : jsstring) :
  Json.quoteJSONString a = Json.quoteJSONString b → a = b.
Proof.
  intros H.
  pose proof (parseString_quoteJSONString a []) as Ha.
  pose proof (parseString_quoteJSONString b []) as Hb.
  rewrite H in Ha. rewrite Ha in Hb. by injection Hb.
Qed.

Lemma quoteJSONString_injective_witness :
  [97; 10; 55357]%N = [97; 10; 55357]%N.
Proof.
  apply (quoteJSONString_injective [97; 10; 55357]%N [97; 10; 55357]%N).
  reflexivity.
Defined.

(** A block starts with the header and is never empty; the object read from
    its first brace is the object literal of the formatter, and the text
    left after the object is a blank line and the closing question. *)
Theorem block_decomposes (summary : Format.Summary) :
  Format.formatContextBlock summary
    = Format.HEADER ++ [NL; NL] ++ Format.contextJson summary
        ++ [NL; NL] ++ Format.question summary
  ∧ Format.formatContextBlock summary ≠ []
  ∧ Json.parseObject
      (Format.fromFirstBrace (Format.formatContextBlock summary))
    = Some (Format.members (Format.contextFields summary),
            [NL; NL] ++ Format.question summary).
Proof.
  split; [|split; [|apply parse_block]].
  - rewrite formatContextBlock_shape. by rewrite <- !app_assoc.
  - by rewrite formatContextBlock_shape.
Qed.

(** Two summaries with the same block have the same five fields after
    defaulting and the same closing question: the block determines what it
    was made from, up to the defaults. *)
Theorem formatContextBlock_injective (a b : Format.Summary) :
  Format.formatContextBlock a = Format.formatContextBlock b →
  Format.contextFields a = Format.contextFields b
  ∧ Format.question a = Format.question b.
Proof.
  intros H.
  pose proof (readFields_formatContextBlock a) as Ra.
  pose proof (readFields_formatContextBlock b) as Rb.
  pose proof (parse_block a) as Pa. pose proof (parse_block b) as Pb.
  rewrite H in Ra, Pa. rewrite Ra in Rb. rewrite Pa in Pb.
  split; [congruence|].
  assert (E : [NL; NL] ++ Format.question a = [NL; NL] ++ Format.question b)
    by congruence.
  by apply app_inv_head in E.
Qed.

Lemma formatContextBlock_injective_witness :
  Format.contextFields Samples.blankSummary
    = Format.contextFields Samples.emptyTextSummary
  ∧ Format.question Samples.blankSummary
    = Format.question Samples.emptyTextSummary.
Proof.
  apply (formatContextBlock_injective Samples.blankSummary
           Samples.emptyTextSummary).
  vm_compute. reflexivity.
Defined.

(* ================================================================== *)
(** * More runs of the coordinator *)
(* ================================================================== *)

Section ServedFacts.

Import Protocol Coordinator Routing.

Lemma served_app a b : served (a ++ b) = served a ++ served b.
Proof.
  induction a as [|x a IH]; [done|].
  destruct x as [[block|]| | |]; cbn [app served]; by rewrite ?IH.
Qed.

Lemma summaries_cons e rest :
  summaries (e :: rest) = summaries [e] ++ summaries rest.
Proof.
  destruct e as [[[summary|]| | |] sender|n tab]; try done.
  cbn [summaries]. by destruct (truthyTab sender).
Qed.

(** A turn records only blocks formatted in it or recorded before, and
    serves only recorded blocks. *)
Lemma turn_blocked (B : jsstring → Prop) w e w' effects :
  blocked B w →
  (∀ summary, summary ∈ summaries [e] →
              B (Format.formatContextBlock summary)) →
  turn w e = Some (w', effects) →
  blocked B w' ∧ ∀ block, block ∈ served effects → B block.
Proof.
  intros (Hpc & Hcr) Hcap. destruct e as [message sender|n tab]; simpl.
  - destruct message as [summary| |content|]; simpl.
    + intros [= <- <-].
      destruct (handleCapture_shape summary sender) as [_ Hreq].
      split.
      * split; [done|]. simpl. apply Forall_app. split; [done|].
        destruct Hreq as [->|(block & s & -> & Hs & ->)]; [constructor|].
        repeat constructor. simpl. apply Hcap. simpl. rewrite Hs. by left.
      * unfold handleCapture. destruct summary; [|by intros ? ?%elem_of_nil].
        destruct (truthyTab sender); by intros ? ?%elem_of_nil.
    + destruct (truthyTab sender) as [t|]; simpl;
        [|intros [= <- <-]; split; [|by intros ? ?%elem_of_nil];
          split; simpl; rewrite ?app_nil_r; done].
      destruct (pendingContext (tables w) !! t) as [entry|] eqn:He; simpl;
        intros [= <- <-].
      * split.
        -- split; simpl; [|by rewrite app_nil_r].
           intros u e' Hu. apply lookup_delete_Some in Hu as [_ Hu]. eauto.
        -- intros block ->%list_elem_of_singleton. eauto.
      * split; [|by intros ? ?%elem_of_nil].
        split; simpl; rewrite ?app_nil_r; done.
    + destruct (truthyTab sender) as [t|]; simpl;
        [|intros [= <- <-]; split; [|by intros ? ?%elem_of_nil];
          split; simpl; rewrite ?app_nil_r; done].
      destruct (pendingReview (tables w) !! t) as [src|]; simpl;
        [|intros [= <- <-]; split; [|by intros ? ?%elem_of_nil];
          split; simpl; rewrite ?app_nil_r; done].
      destruct (src =? 0); simpl; intros [= <- <-];
        (split; [|by intros ? ?%elem_of_nil]);
        split; simpl; rewrite ?app_nil_r; done.
    + intros [= <- <-]. split; [|by intros ? ?%elem_of_nil].
      split; simpl; rewrite ?app_nil_r; done.
  - destruct (creating w !! n) as [closure|] eqn:Hn; [|discriminate].
    assert (Hclosure : B (contextBlock closure)).
    { eapply Forall_lookup_1 in Hcr; eauto. }
    destruct tab as [id|]; simpl.
    + destruct (bool_decide (id ∉ created w)); [|discriminate].
      intros [= <- <-]. split; [|by intros ? ?%elem_of_nil].
      split; simpl; [|by apply Forall_remove_nth].
      intros u e' Hu. apply lookup_insert_Some in Hu as [[_ <-]|[_ Hu]]; eauto.
    + intros [= <- <-]. split; [|by intros ? ?%elem_of_nil].
      split; [done|]. simpl. by apply Forall_remove_nth.
Qed.

Lemma run_blocked (B : jsstring → Prop) events : ∀ w w' effects,
  blocked B w →
  (∀ summary, summary ∈ summaries events →
              B (Format.formatContextBlock summary)) →
  run w events = Some (w', effects) →
  ∀ block, block ∈ served effects → B block.
Proof.
  induction events as [|e rest IH]; intros w w' effects Hw Hcap Hrun.
  - injection Hrun as <- <-. by intros ? ?%elem_of_nil.
  - apply run_cons in Hrun as (w1 & eff1 & eff2 & Hturn & Hrest & ->).
    rewrite summaries_cons in Hcap.
    destruct (turn_blocked B w e w1 eff1 Hw) as [Hw1 Hserved]; [|done|].
    { intros s Hs. apply Hcap, elem_of_app. by left. }
    intros block. rewrite served_app, elem_of_app. intros [Hin|Hin]; [eauto|].
    eapply (IH w1 w' eff2 Hw1); [|done|done].
    intros s Hs. apply Hcap, elem_of_app. by right.
Qed.

End ServedFacts.

(** In every run from the start, a context block served to a Claude tab is
    the formatted summary of a [CAPTURE] delivered in the run by a tab with
    a truthy id; so it is never empty. *)
Theorem served_contexts_are_formatted_captures
    (events : list Coordinator.Event) (w : Coordinator.World)
    (effects : list Coordinator.Effect) :
  Coordinator.run Coordinator.initial events = Some (w, effects) →
  ∀ block, block ∈ Routing.served effects →
    block ≠ []
    ∧ ∃ summary, summary ∈ Routing.summaries events
                 ∧ block = Format.formatContextBlock summary.
Proof.
  intros Hrun block Hin.
  assert (H : ∃ summary, summary ∈ Routing.summaries events
                         ∧ block = Format.formatContextBlock summary).
  { apply (run_blocked
             (λ b, ∃ summary, summary ∈ Routing.summaries events
                              ∧ b = Format.formatContextBlock summary)
             events Coordinator.initial w effects); [|eauto|done|done].
    split; simpl; [|constructor].
    intros ? ?. rewrite lookup_empty. discriminate. }
  split; [|exact H]. destruct H as (summary & _ & ->).
  by rewrite formatContextBlock_shape.
Qed.

Lemma served_contexts_are_formatted_captures_witness :
  Format.formatContextBlock Samples.summary ≠ []
  ∧ ∃ summary, summary ∈ Routing.summaries Samples.sessionEvents
               ∧ Format.formatContextBlock Samples.summary
                 = Format.formatContextBlock summary.
Proof.
  apply (served_contexts_are_formatted_captures Samples.sessionEvents
           {| Coordinator.tables := Coordinator.empty;
              Coordinator.creating := [];
              Coordinator.created := {[ Samples.claudeTab ]} |}
           (Samples.effectsOf Samples.sessionEvents)).
  - vm_compute. reflexivity.
  - vm_compute. left.
Defined.

(** A capture whose tab the browser fails to open leaves no trace: after
    the capture and the failing callback the world is exactly the one
    before, whatever it was; one tab was asked for and the failure was
    logged. *)
Theorem failed_tab_creation_leaves_world (w : Coordinator.World)
    (summary : Format.Summary) (s : Z) :
  s ≠ 0 →
  Coordinator.run w
    [ Coordinator.Deliver (Protocol.CAPTURE (Some summary)) (Some s);
      Coordinator.TabCallback (length (Coordinator.creating w)) None ]
  = Some (w,
          [ Coordinator.TabsCreate "https://claude.ai"
              {| Coordinator.contextBlock := Format.formatContextBlock summary;
                 Coordinator.sourceTabId := s |};
            Coordinator.ConsoleError
              "[DuperMemory] Failed to open Claude tab:" ]).
Proof.
  intros Hs. cbn [Coordinator.run].
  unfold Coordinator.turn at 1.
  cbn [Coordinator.onMessage Coordinator.handleCapture].
  rewrite (truthyTab_nonzero s Hs).
  cbn [Coordinator.requested Coordinator.tables Coordinator.creating
       Coordinator.created].
  unfold Coordinator.turn at 1.
  cbn [Coordinator.tables Coordinator.creating Coordinator.created].
  rewrite lookup_app_r, Nat.sub_diag by lia. cbn [lookup list_lookup].
  cbn [Coordinator.onTabCreated].
  rewrite take_app_length.
  rewrite drop_ge by (rewrite length_app; simpl; lia).
  rewrite app_nil_r. cbn [app]. by destruct w.
Qed.

Lemma failed_tab_creation_leaves_world_witness :
  Coordinator.run Samples.reviewing
    [ Coordinator.Deliver (Protocol.CAPTURE (Some Samples.summary))
        (Some Samples.chatTab);
      Coordinator.TabCallback
        (length (Coordinator.creating Samples.reviewing)) None ]
  = Some (Samples.reviewing,
          [ Coordinator.TabsCreate "https://claude.ai"
              {| Coordinator.contextBlock :=
                   Format.formatContextBlock Samples.summary;
                 Coordinator.sourceTabId := Samples.chatTab |};
            Coordinator.ConsoleError
              "[DuperMemory] Failed to open Claude tab:" ]).
Proof.
  apply (failed_tab_creation_leaves_world Samples.reviewing Samples.summary
           Samples.chatTab).
  vm_compute. discriminate.
Defined.

(* ================================================================== *)
(** * The poller while it waits *)
(* ================================================================== *)

Section WaitingFacts.

Import Detector Stability.

Variable cfg : Config.
Variable snapshot : jsstring.

Lemma tracks_step seen p t p' :
  tracks cfg snapshot seen p →
  tick cfg snapshot p t = Reschedule p' →
  tracks cfg snapshot (seen ++ [t]) p'.
Proof.
  intros (Hel & Hcount & Hphase). unfold tick, tracks.
  rewrite length_app, last_snoc. cbn [length].
  destruct (TIMEOUT_MS cfg <=? elapsed p); [discriminate|].
  destruct (Z.eqb_spec (phase p) 1) as [Hph|Hph].
  - destruct Hphase as [[_ Hsmall]|[Hph2 _]]; [|lia].
    destruct (Z.ltb_spec (len snapshot + MIN_NEW_CHARS cfg) (len t));
      intros [= <-]; cbn [elapsed stableCount phase lastLength].
    + split; [lia|]. split; [done|]. right. split; [done|].
      split; [|eauto]. apply Exists_app. right. by constructor.
    + split; [lia|]. split; [done|]. left. split; [done|].
      apply Forall_app. split; [done|]. by repeat constructor.
  - destruct Hphase as [[Hph1 _]|(Hph2 & Hgrown & _)]; [done|].
    assert (Hgrown' : Exists (λ u, len snapshot + MIN_NEW_CHARS cfg < len u)
                        (seen ++ [t])) by (apply Exists_app; by left).
    destruct (Z.eqb_spec (len t) (lastLength p)) as [Hlen|Hlen].
    + destruct (Z.leb_spec (STABLE_NEEDED cfg) (stableCount p + 1));
        [discriminate|].
      intros [= <-]. cbn [elapsed stableCount phase lastLength].
      split; [lia|]. split; [lia|]. right. split; [done|].
      split; [done|]. eauto.
    + intros [= <-]. cbn [elapsed stableCount phase lastLength].
      split; [lia|]. split; [by left|]. right. split; [done|].
      split; [done|]. eauto.
Qed.

Lemma poll_tracks texts : ∀ seen p p',
  tracks cfg snapshot seen p →
  poll cfg snapshot (length seen) p texts = Waiting p' →
  tracks cfg snapshot (seen ++ texts) p'.
Proof.
  induction texts as [|t rest IH]; intros seen p p' Htr; simpl.
  - intros [= <-]. by rewrite app_nil_r.
  - destruct (tick cfg snapshot p t) as [o|p1] eqn:Htick; [discriminate|].
    intros Hpoll.
    replace (S (length seen)) with (length (seen ++ [t])) in Hpoll
      by (rewrite length_app; simpl; lia).
    apply IH in Hpoll; [|by eapply tracks_step].
    by rewrite <- app_assoc in Hpoll.
Qed.

End WaitingFacts.

(** While the detector waits, its locals follow the texts read so far:
    [elapsed] is the poll interval times their number; it is in phase 1
    exactly when none of them exceeded the growth threshold, and otherwise
    in phase 2 with [lastLength] the length of the latest text; the counter
    is 0 or below [STABLE_NEEDED]. *)
Theorem waiting_poller_tracks_reads (cfg : Detector.Config)
    (scopeEl : Detector.Scope) (snapshot : jsstring) (p : Detector.Poller) :
  Detector.waitFor cfg scopeEl snapshot = Detector.Waiting p →
  Detector.elapsed p
    = Detector.POLL_MS cfg * Z.of_nat (length (Detector.textAtTick scopeEl))
  ∧ (Detector.stableCount p = 0
     ∨ 0 < Detector.stableCount p < Detector.STABLE_NEEDED cfg)
  ∧ ((Detector.phase p = 1
      ∧ Forall (λ t, len t ≤ len snapshot + Detector.MIN_NEW_CHARS cfg)
          (Detector.textAtTick scopeEl))
     ∨ (Detector.phase p = 2
        ∧ Exists (λ t, len snapshot + Detector.MIN_NEW_CHARS cfg < len t)
            (Detector.textAtTick scopeEl)
        ∧ ∃ t, last (Detector.textAtTick scopeEl) = Some t
               ∧ Detector.lastLength p = len t)).
Proof.
  unfold Detector.waitFor. intros Hpoll.
  apply (poll_tracks cfg snapshot (Detector.textAtTick scopeEl) []
           (Detector.start scopeEl) p); [|exact Hpoll].
  split; [simpl; lia|]. split; [by left|]. left. by split.
Qed.

Lemma waiting_poller_tracks_reads_witness :
  Detector.elapsed
    {| Detector.phase := 2; Detector.lastLength := 1060;
       Detector.stableCount := 0; Detector.elapsed := 1500 |}
    = Detector.POLL_MS Detector.defaults
      * Z.of_nat (length (Detector.textAtTick Samples.growingScope))
  ∧ (0 = 0 ∨ 0 < 0 < Detector.STABLE_NEEDED Detector.defaults)
  ∧ ((2 = 1
      ∧ Forall (λ t, len t ≤ len Samples.baseline
                           + Detector.MIN_NEW_CHARS Detector.defaults)
          (Detector.textAtTick Samples.growingScope))
     ∨ (2 = 2
        ∧ Exists (λ t, len Samples.baseline
                       + Detector.MIN_NEW_CHARS Detector.defaults < len t)
            (Detector.textAtTick Samples.growingScope)
        ∧ ∃ t, last (Detector.textAtTick Samples.growingScope) = Some t
               ∧ 1060 = len t)).
Proof.
  apply (waiting_poller_tracks_reads Detector.defaults Samples.growingScope
           Samples.baseline
           {| Detector.phase := 2; Detector.lastLength := 1060;
              Detector.stableCount := 0; Detector.elapsed := 1500 |}).
  vm_compute. reflexivity.
Defined.

(** Only the text after the snapshot's length counts: when the page text
    is the snapshot followed by new text, the response is extracted from
    the new text alone; and a page text no longer than the snapshot gives
    the empty response. *)
Theorem extractResponse_uses_only_new_text (before : jsstring) :
  (∀ added,
     Detector.extractResponse before (before ++ added)
     = Detector.extractResponse [] added)
  ∧ (∀ after, len after ≤ len before →
              Detector.extractResponse before after = []).
Proof.
  split.
  - intros added. unfold Detector.extractResponse, slice, len.
    rewrite Nat2Z.id, drop_app_length. reflexivity.
  - intros after Hlen. unfold Detector.extractResponse, slice.
    rewrite drop_ge by (unfold len in *; lia). reflexivity.
Qed.
